(** * IrisGridProxyModel: a shallow embedding and its properties

    The development follows [packages/iris-grid/src/IrisGridProxyModel.ts].
    The proxy is a JavaScript object whose fields are mutated by its methods
    and by promise callbacks; here its fields are the record [Proxy], the
    promise objects it creates live in a store indexed by allocation order,
    and every call the proxy makes on a collaborator (a backing model, or its
    own [dispatchEvent]) is appended to a call log.  Methods are functions
    from worlds to worlds; a method that can throw returns a [Result]. *)

From Stdlib Require Import ZArith.
From stdpp Require Import base decidable option list gmap strings.

Open Scope string_scope.
Open Scope list_scope.
Open Scope nat_scope.

(** ** Data *)

(** A JavaScript array: [===] compares the reference, [deepEqual] the
    contents. *)
Record JsArray (A : Type) := MkArray { ref : nat; items : list A }.
Arguments MkArray {A} _ _.
Arguments ref {A} _.
Arguments items {A} _.

Definition same_ref {A} (a b : JsArray A) : bool := bool_decide (ref a = ref b).

Definition ColumnName := string.
Definition ModelIndex := Z.
Abbreviation ModelId := nat (only parsing).
Abbreviation PromiseId := nat (only parsing).

(** [DhType.Column]; the proxy only reads [name]. *)
Record Column := MkColumn { name : ColumnName }.

#[global] Instance Column_eq_dec : EqDecision Column.
Proof. solve_decision. Defined.

(** [DhType.RollupConfig]. *)
Record RollupConfig := MkRollupConfig {
  groupingColumns : list ColumnName;
  aggregations : gmap string (list ColumnName);
  includeConstituents : bool;
  includeOriginalColumns : option bool;
  includeDescriptions : bool
}.

#[global] Instance RollupConfig_eq_dec : EqDecision RollupConfig.
Proof. solve_decision. Defined.

(** [deepEqual] of fast-deep-equal on two [RollupConfig | null] values:
    structural equality, insensitive to key order of [aggregations]. *)
Definition deepEqual (a b : option RollupConfig) : bool := bool_decide (a = b).

(** [PartitionConfig] of [PartitionedGridModel]: the partition values and
    the mode ['keys' | 'merged' | 'partition']. *)
Inductive PartitionMode := ModeKeys | ModeMerged | ModePartition.

Record PartitionConfig := MkPartitionConfig {
  partitions : list string;
  mode : PartitionMode
}.

#[global] Instance PartitionMode_eq_dec : EqDecision PartitionMode.
Proof. solve_decision. Defined.

#[global] Instance PartitionConfig_eq_dec : EqDecision PartitionConfig.
Proof. solve_decision. Defined.

(** The three shapes of a raw source, [DhType.Table | DhType.TreeTable |
    DhType.PartitionedTable]. *)
Inductive TableShape := FlatShape | TreeShape | PartitionedShape.

(** The optional capability sets of a backing model.  A model that lacks a
    capability has [None] for it; the capability predicates below test
    exactly that. *)
Record ExpandableGridModel := MkExpandable {
  m_hasExpandableRows : bool;
  m_isExpandAllAvailable : option bool;
  m_isRowExpandable : ModelIndex -> bool;
  m_isRowExpanded : ModelIndex -> bool;
  m_depthForRow : ModelIndex -> Z
}.

Record EditableGridModel := MkEditable {
  m_isEditable : bool;
  m_isValidForCell : ModelIndex -> ModelIndex -> string -> bool;
  m_editValueForCell : ModelIndex -> ModelIndex -> string
}.

Record PartitionedGridModelProvider := MkPartitioned {
  m_isPartitionRequired : bool;
  m_partitionColumns : list Column
}.

(** What a backing model answers when the proxy reads one of its
    properties.  The backing-model classes are collaborators of the proxy;
    only these answers matter to it. *)
Record BackingView := MkView {
  v_columns : JsArray Column;
  v_isRollupAvailable : bool;
  v_isSelectDistinctAvailable : bool;
  v_isCustomColumnsAvailable : bool;
  v_expandable : option ExpandableGridModel;
  v_editable : option EditableGridModel;
  v_partitioned : option PartitionedGridModelProvider
}.

(** A raw source handle, together with the view of the backing model that
    is constructed over it. *)
Record Table := MkTable {
  table_id : nat;
  shape : TableShape;
  view : BackingView
}.

Inductive Variant :=
  | IrisGridTableModel
  | IrisGridTreeTableModel
  | IrisGridPartitionedTableModel.

#[global] Instance Variant_eq_dec : EqDecision Variant.
Proof. solve_decision. Defined.

(** A backing model object: [mid] is its identity ([===] on models compares
    it). *)
Record IrisGridModel := MkModel {
  mid : ModelId;
  variant : Variant;
  source : Table
}.

Definition same_object (a b : IrisGridModel) : bool := bool_decide (mid a = mid b).

Definition columns (m : IrisGridModel) : JsArray Column := v_columns (view (source m)).

(** [TableUtils.isTreeTable], [TableUtils.isPartitionedTable]. *)
Definition isTreeTable (t : Table) : bool :=
  match shape t with TreeShape => true | _ => false end.

Definition isPartitionedTable (t : Table) : bool :=
  match shape t with PartitionedShape => true | _ => false end.

(** [makeModel]: the object allocated by [new] gets the identity [fresh]. *)
Definition makeModel (fresh : ModelId) (table : Table) : IrisGridModel :=
  if isTreeTable table then MkModel fresh IrisGridTreeTableModel table
  else if isPartitionedTable table then MkModel fresh IrisGridPartitionedTableModel table
  else MkModel fresh IrisGridTableModel table.

(** ** Capability predicates *)

Definition isExpandableGridModel (m : IrisGridModel) : option ExpandableGridModel :=
  v_expandable (view (source m)).

Definition isEditableGridModel (m : IrisGridModel) : option EditableGridModel :=
  v_editable (view (source m)).

Definition isPartitionedGridModelProvider (m : IrisGridModel)
  : option PartitionedGridModelProvider :=
  v_partitioned (view (source m)).

(** Modelled from the spec: [isIrisGridTableModelTemplate] is declared in
    [IrisGridTableModelTemplate.ts], which is not among the sources.  The
    spec names the capability it tests "TableBacked: exposes the single
    concrete data-source handle".  Which models pass it is read off the
    proxy's own [get table] (lines 673-679): under this very guard it
    returns [this.model.table], typed [DhType.Table | DhType.TreeTable], so
    the flat table model and the tree table model both pass; the partitioned
    model, built over a [DhType.PartitionedTable], has no such handle and
    does not. *)
Definition isIrisGridTableModelTemplate (m : IrisGridModel) : bool :=
  match variant m with
  | IrisGridTableModel | IrisGridTreeTableModel => true
  | IrisGridPartitionedTableModel => false
  end.

(** ** Errors, events and the call log *)

(** A rejection reason: the [CanceledPromiseError] of a canceled wrapper, or
    any other error. *)
Inductive Err :=
  | CanceledPromiseError
  | Failure (msg : string).

(** Modelled from the spec: [PromiseUtils.isCanceled] lives in
    [@deephaven/utils]; the failure callback "distinguish[es] canceled from
    genuine error". *)
Definition isCanceled (e : Err) : bool :=
  match e with CanceledPromiseError => true | Failure _ => false end.

(** Modelled from the spec: the keys of [IrisGridModel.EVENT], "a fixed
    enumeration of event kinds (columns-changed, table-changed,
    request-failed, plus backing-model-defined kinds)". *)
Inductive EventName :=
  | COLUMNS_CHANGED
  | TABLE_CHANGED
  | REQUEST_FAILED
  | MODEL_EVENT (kind : string).

#[global] Instance EventName_eq_dec : EqDecision EventName.
Proof. solve_decision. Defined.

Definition EVENT_keys : list EventName :=
  [MODEL_EVENT "UPDATED"; REQUEST_FAILED; COLUMNS_CHANGED; TABLE_CHANGED].
Arguments EVENT_keys : simpl never.

Inductive Detail :=
  | DColumns (cols : JsArray Column)
  | DTable (t : Table)
  | DError (e : Err).

(** Every call the proxy makes on a collaborator.  The log is kept newest
    first. *)
Inductive Call :=
  | ModelClose (m : ModelId)
  | ModelSetViewport (m : ModelId) (top bottom : Z) (cols : option (JsArray Column))
  | ModelAddEventListener (m : ModelId) (e : EventName)
  | ModelRemoveEventListener (m : ModelId) (e : EventName)
  | ModelSetRowExpanded (m : ModelId) (x : ModelIndex) (isExpanded expandDescendants : bool)
  | ModelExpandAll (m : ModelId)
  | ModelCollapseAll (m : ModelId)
  | ModelSetValueForCell (m : ModelId) (x y : ModelIndex) (value : string)
  | ModelSetValueForRanges (m : ModelId) (ranges : list (Z * Z * Z * Z)) (value : string)
  | ModelSetValues (m : ModelId) (edits : list (ModelIndex * ModelIndex * string))
  | DispatchEvent (type : EventName) (detail : Detail).

(** ** The cancelable wrapper *)

(** The promise handed to [setNextModel]: [Promise.resolve(originalModel)],
    or a derivation on the original source followed by [makeModel]. *)
Inductive Request :=
  | Rollup (c : RollupConfig)
  | SelectDistinct (cols : list Column)
  | PartitionKeysTable
  | PartitionMergedTable
  | PartitionTable (parts : list string).

Inductive Source :=
  | Immediate (m : IrisGridModel)
  | Derived (r : Request).

(** Modelled from the spec: [PromiseUtils.makeCancelable] lives in
    [@deephaven/utils], not among the sources.  The spec describes the
    wrapper as carrying "an explicit cancellation flag and a guaranteed
    single-invocation disposal callback"; cancellation is "idempotent; after
    cancellation the eventual result, if the underlying operation still
    completes, must have its disposal callback invoked and must NOT
    propagate as an update", and it has "a terminal success callback; a
    terminal failure callback distinguishing canceled from genuine error".
    [resolved] remembers a value that was delivered before a cancellation,
    which a later [cancel] disposes.  A callback runs at the moment its
    wrapper settles or is canceled: the microtask hop between the two is
    not represented. *)
Record CancelablePromise := MkPromise {
  underlying : Source;
  hasCanceled : bool;
  settled : bool;
  resolved : option IrisGridModel
}.

(** ** The proxy and its world *)

Record Viewport := MkViewport {
  vp_top : Z;
  vp_bottom : Z;
  vp_columns : option (JsArray Column)
}.

Record Proxy := MkProxy {
  originalModel : IrisGridModel;
  model : IrisGridModel;
  modelPromise : option PromiseId;
  rollup : option RollupConfig;
  partition : option PartitionConfig;
  selectDistinct : JsArray ColumnName;
  currentViewport : option Viewport;
  listenerCount : nat
}.

Record World := MkWorld {
  proxy : Proxy;
  promises : gmap PromiseId CancelablePromise;
  nextPromise : PromiseId;
  nextModel : ModelId;
  calls : list Call
}.

Inductive Result (A : Type) :=
  | Ok (a : A)
  | Throw (msg : string).
Arguments Ok {A} _.
Arguments Throw {A} _.

Definition set_model (m : IrisGridModel) (p : Proxy) : Proxy :=
  MkProxy (originalModel p) m (modelPromise p) (rollup p) (partition p)
          (selectDistinct p) (currentViewport p) (listenerCount p).

Definition set_modelPromise (mp : option PromiseId) (p : Proxy) : Proxy :=
  MkProxy (originalModel p) (model p) mp (rollup p) (partition p)
          (selectDistinct p) (currentViewport p) (listenerCount p).

Definition set_rollup (r : option RollupConfig) (p : Proxy) : Proxy :=
  MkProxy (originalModel p) (model p) (modelPromise p) r (partition p)
          (selectDistinct p) (currentViewport p) (listenerCount p).

Definition set_partition (c : option PartitionConfig) (p : Proxy) : Proxy :=
  MkProxy (originalModel p) (model p) (modelPromise p) (rollup p) c
          (selectDistinct p) (currentViewport p) (listenerCount p).

Definition set_selectDistinct (s : JsArray ColumnName) (p : Proxy) : Proxy :=
  MkProxy (originalModel p) (model p) (modelPromise p) (rollup p) (partition p)
          s (currentViewport p) (listenerCount p).

Definition set_currentViewport (v : option Viewport) (p : Proxy) : Proxy :=
  MkProxy (originalModel p) (model p) (modelPromise p) (rollup p) (partition p)
          (selectDistinct p) v (listenerCount p).

Definition set_listenerCount (n : nat) (p : Proxy) : Proxy :=
  MkProxy (originalModel p) (model p) (modelPromise p) (rollup p) (partition p)
          (selectDistinct p) (currentViewport p) n.

Definition upd_proxy (f : Proxy -> Proxy) (w : World) : World :=
  MkWorld (f (proxy w)) (promises w) (nextPromise w) (nextModel w) (calls w).

Definition upd_promises
  (f : gmap PromiseId CancelablePromise -> gmap PromiseId CancelablePromise)
  (w : World) : World :=
  MkWorld (proxy w) (f (promises w)) (nextPromise w) (nextModel w) (calls w).

Definition emit (c : Call) (w : World) : World :=
  MkWorld (proxy w) (promises w) (nextPromise w) (nextModel w) (c :: calls w).

(** ** The cancelable wrapper, continued *)

Section Wrapper.

(** The callbacks registered on a wrapper: the disposal callback given to
    [makeCancelable], and the handlers attached with [then] and [catch]. *)
Variable cleanup : IrisGridModel -> World -> World.
Variable onFulfilled : IrisGridModel -> World -> World.
Variable onRejected : Err -> World -> World.

Definition update_promise (pid : PromiseId) (p : CancelablePromise) (w : World) : World :=
  upd_promises <[pid := p]> w.

(** Modelled from the spec (see [CancelablePromise]): cancellation.  A
    second cancellation does nothing.  A wrapper that has not settled
    reports [CanceledPromiseError] to its failure callback; one that already
    delivered a value disposes of it. *)
Definition cancel (pid : PromiseId) (w : World) : World :=
  match promises w !! pid with
  | None => w
  | Some p =>
      if hasCanceled p then w
      else
        let w' := update_promise pid
                    (MkPromise (underlying p) true (settled p) (resolved p)) w in
        if settled p then
          match resolved p with
          | Some m => cleanup m w'
          | None => w'
          end
        else onRejected CanceledPromiseError w'
  end.

(** Modelled from the spec (see [CancelablePromise]): the underlying
    operation completes with value [m].  A canceled wrapper disposes of the
    value and does not propagate it; otherwise the success callback runs. *)
Definition fulfil (pid : PromiseId) (m : IrisGridModel) (w : World) : World :=
  match promises w !! pid with
  | None => w
  | Some p =>
      if settled p then w
      else if hasCanceled p then
        cleanup m (update_promise pid (MkPromise (underlying p) true true None) w)
      else
        onFulfilled m (update_promise pid (MkPromise (underlying p) false true (Some m)) w)
  end.

(** Modelled from the spec (see [CancelablePromise]): the underlying
    operation fails with [e].  A canceled wrapper has already reported the
    cancellation. *)
Definition reject (pid : PromiseId) (e : Err) (w : World) : World :=
  match promises w !! pid with
  | None => w
  | Some p =>
      if settled p then w
      else
        let w' := update_promise pid
                    (MkPromise (underlying p) (hasCanceled p) true None) w in
        if hasCanceled p then w' else onRejected e w'
  end.

End Wrapper.

(** Modelled from the spec (see [CancelablePromise]): allocation of a new
    wrapper around the promise [src]. *)
Definition makeCancelable (src : Source) (w : World) : PromiseId * World :=
  let pid := nextPromise w in
  (pid, MkWorld (proxy w) (<[pid := MkPromise src false false None]> (promises w))
                (S pid) (nextModel w) (calls w)).

(** ** Methods of the proxy *)

Definition addListeners (m : IrisGridModel) (w : World) : World :=
  foldl (fun w e => emit (ModelAddEventListener (mid m) e) w) w EVENT_keys.

Definition removeListeners (m : IrisGridModel) (w : World) : World :=
  foldl (fun w e => emit (ModelRemoveEventListener (mid m) e) w) w EVENT_keys.

Definition setModel (m : IrisGridModel) (w : World) : World :=
  let oldModel := model (proxy w) in
  let oldColumns := columns oldModel in
  let w1 := if negb (same_object oldModel (originalModel (proxy w)))
            then emit (ModelClose (mid oldModel)) w else w in
  let w2 := upd_proxy (set_model m) w1 in
  let w3 := if bool_decide (0 < listenerCount (proxy w2))
            then addListeners m w2 else w2 in
  let w4 := if negb (same_ref oldColumns (columns m))
            then emit (DispatchEvent COLUMNS_CHANGED (DColumns (columns m))) w3
            else match currentViewport (proxy w3) with
                 | Some vp =>
                     emit (ModelSetViewport (mid m) (vp_top vp) (vp_bottom vp)
                                            (vp_columns vp)) w3
                 | None => w3
                 end in
  if isIrisGridTableModelTemplate m
  then emit (DispatchEvent TABLE_CHANGED (DTable (source m))) w4
  else w4.

(** The three callbacks [setNextModel] registers on the wrapper. *)
Definition closeModel (m : IrisGridModel) (w : World) : World :=
  emit (ModelClose (mid m)) w.

Definition onNextModel (m : IrisGridModel) (w : World) : World :=
  setModel m (upd_proxy (set_modelPromise None) w).

Definition onNextModelFailed (err : Err) (w : World) : World :=
  if isCanceled err then w
  else emit (DispatchEvent REQUEST_FAILED (DError err))
            (upd_proxy (set_modelPromise None) w).

Definition cancelPromise : PromiseId -> World -> World :=
  cancel closeModel onNextModelFailed.

Definition setNextModel (src : Source) (w : World) : World :=
  let w1 := match modelPromise (proxy w) with
            | Some pid => cancelPromise pid w
            | None => w
            end in
  let w2 := if bool_decide (0 < listenerCount (proxy w1))
            then removeListeners (model (proxy w1)) w1 else w1 in
  let '(pid, w3) := makeCancelable src w2 in
  upd_proxy (set_modelPromise (Some pid)) w3.

Definition close (w : World) : World :=
  let p := proxy w in
  let w1 := emit (ModelClose (mid (originalModel p))) w in
  let w2 := if negb (same_object (model p) (originalModel p))
            then emit (ModelClose (mid (model p))) w1 else w1 in
  match modelPromise p with
  | Some pid => cancelPromise pid w2
  | None => w2
  end.

Definition startListening (w : World) : World := addListeners (model (proxy w)) w.

Definition stopListening (w : World) : World := removeListeners (model (proxy w)) w.

(** Modelled from the spec: [listenerCount] is maintained by the base class
    [IrisGridModel], not among the sources; it is the "listener
    registration count, used to decide whether to (de)register against the
    active model".  The first listener starts listening, the last one
    removed stops it. *)
Definition addEventListener (w : World) : World :=
  let n := listenerCount (proxy w) in
  let w' := upd_proxy (set_listenerCount (S n)) w in
  if bool_decide (n = 0) then startListening w' else w'.

Definition removeEventListener (w : World) : World :=
  match listenerCount (proxy w) with
  | 0 => w
  | S n =>
      let w' := upd_proxy (set_listenerCount n) w in
      if bool_decide (n = 0) then stopListening w' else w'
  end.

Definition setViewport (top bottom : Z) (cols : option (JsArray Column)) (w : World)
  : World :=
  let w' := upd_proxy (set_currentViewport (Some (MkViewport top bottom cols))) w in
  emit (ModelSetViewport (mid (model (proxy w'))) top bottom cols) w'.

(** *** Availability getters *)

Definition isRollupAvailable (p : Proxy) : bool :=
  (v_isRollupAvailable (view (source (originalModel p))) || bool_decide (rollup p <> None))
  && bool_decide (length (items (selectDistinct p)) = 0).

Definition isSelectDistinctAvailable (p : Proxy) : bool :=
  (v_isSelectDistinctAvailable (view (source (originalModel p)))
   || bool_decide (0 < length (items (selectDistinct p))))
  && bool_decide (rollup p = None).

Definition selectDistinctColumns (p : Proxy) : JsArray ColumnName := selectDistinct p.

Definition isCustomColumnsAvailable (p : Proxy) : bool :=
  v_isCustomColumnsAvailable (view (source (model p)))
  && negb (isSelectDistinctAvailable p
           && bool_decide (0 < length (items (selectDistinctColumns p)))).

Definition originalColumns (p : Proxy) : JsArray Column := columns (originalModel p).

Definition isPartitionRequired (p : Proxy) : bool :=
  match isPartitionedGridModelProvider (originalModel p) with
  | Some pm => m_isPartitionRequired pm
  | None => false
  end.

Definition partitionConfig (p : Proxy) : option PartitionConfig :=
  match isPartitionedGridModelProvider (originalModel p) with
  | Some pm => if m_isPartitionRequired pm then partition p else None
  | None => None
  end.

Definition rollupConfig (p : Proxy) : option RollupConfig := rollup p.

Definition table (p : Proxy) : option Table :=
  if isIrisGridTableModelTemplate (model p) then Some (source (model p)) else None.

(** *** Configuration setters *)

Definition set_rollupConfig (rollupConfig : option RollupConfig) (w : World)
  : Result World :=
  if negb (isRollupAvailable (proxy w)) then Throw "Rollup Rows are not available"
  else if deepEqual rollupConfig (rollup (proxy w)) then Ok w
  else
    let w1 := upd_proxy (set_rollup rollupConfig) w in
    let src :=
      match rollupConfig with
      | Some c =>
          if isIrisGridTableModelTemplate (originalModel (proxy w1))
          then Derived (Rollup c)
          else Immediate (originalModel (proxy w1))
      | None => Immediate (originalModel (proxy w1))
      end in
    Ok (setNextModel src w1).

Definition set_partitionConfig (partitionConfig : option PartitionConfig) (w : World)
  : Result World :=
  if negb (isPartitionRequired (proxy w)) then Throw "Partitions are not available"
  else
    let w1 := upd_proxy (set_partition partitionConfig) w in
    let src :=
      match partitionConfig, isPartitionedGridModelProvider (originalModel (proxy w1)) with
      | Some c, Some _ =>
          match mode c with
          | ModeKeys => Derived PartitionKeysTable
          | ModeMerged => Derived PartitionMergedTable
          | ModePartition => Derived (PartitionTable (partitions c))
          end
      | _, _ => Immediate (originalModel (proxy w1))
      end in
    Ok (setNextModel src w1).

Definition findColumn (cols : list Column) (n : ColumnName) : option Column :=
  List.find (fun column => bool_decide (name column = n)) cols.

Definition set_selectDistinctColumns (columnNames : JsArray ColumnName) (w : World)
  : Result World :=
  if negb (isSelectDistinctAvailable (proxy w))
  then Throw "Select distinct is not available"
  else if same_ref columnNames (selectDistinctColumns (proxy w))
          || (bool_decide (length (items columnNames) = 0)
              && bool_decide (length (items (selectDistinctColumns (proxy w))) = 0))
  then Ok w
  else
    let w1 := upd_proxy (set_selectDistinct columnNames) w in
    let selected :=
      omap (findColumn (items (originalColumns (proxy w1)))) (items columnNames) in
    let src :=
      if isIrisGridTableModelTemplate (originalModel (proxy w1))
         && bool_decide (0 < length selected)
      then Derived (SelectDistinct selected)
      else Immediate (originalModel (proxy w1)) in
    Ok (setNextModel src w1).

(** *** Optional-capability operations *)

(** The promise an editing operation hands back: the active model's own
    promise when the call is forwarded, or one made on the spot with
    [Promise.resolve()] or [Promise.reject(new Error(msg))]. *)
Inductive ReturnedPromise :=
  | ModelPromise
  | PromiseResolve
  | PromiseReject (msg : string).

Definition hasExpandableRows (p : Proxy) : bool :=
  match isExpandableGridModel (model p) with
  | Some e => m_hasExpandableRows e
  | None => false
  end.

Definition isExpandAllAvailable (p : Proxy) : bool :=
  match isExpandableGridModel (model p) with
  | Some e => default false (m_isExpandAllAvailable e)
  | None => false
  end.

Definition isRowExpandable (p : Proxy) (y : ModelIndex) : bool :=
  match isExpandableGridModel (model p) with
  | Some e => m_isRowExpandable e y
  | None => false
  end.

Definition isRowExpanded (p : Proxy) (y : ModelIndex) : bool :=
  match isExpandableGridModel (model p) with
  | Some e => m_isRowExpanded e y
  | None => false
  end.

Definition depthForRow (p : Proxy) (y : ModelIndex) : Z :=
  match isExpandableGridModel (model p) with
  | Some e => m_depthForRow e y
  | None => 0%Z
  end.

Definition setRowExpanded (y : ModelIndex) (isExpanded expandDescendants : bool)
  (w : World) : Result World :=
  match isExpandableGridModel (model (proxy w)) with
  | Some _ =>
      Ok (emit (ModelSetRowExpanded (mid (model (proxy w))) y isExpanded
                                    expandDescendants) w)
  | None => Throw "Function setRowExpanded does not exist on IrisGridTableModel"
  end.

Definition expandAll (w : World) : Result World :=
  match isExpandableGridModel (model (proxy w)) with
  | Some _ => Ok (emit (ModelExpandAll (mid (model (proxy w)))) w)
  | None => Throw "Function expandAll does not exist on IrisGridTableModel"
  end.

Definition collapseAll (w : World) : Result World :=
  match isExpandableGridModel (model (proxy w)) with
  | Some _ => Ok (emit (ModelCollapseAll (mid (model (proxy w)))) w)
  | None => Throw "Function collapseAll does not exist on IrisGridTableModel"
  end.

Definition isEditable (p : Proxy) : bool :=
  match isEditableGridModel (model p) with
  | Some e => m_isEditable e
  | None => false
  end.

Definition editValueForCell (p : Proxy) (x y : ModelIndex) : string :=
  match isEditableGridModel (model p) with
  | Some e => m_editValueForCell e x y
  | None => EmptyString
  end.

Definition isValidForCell (p : Proxy) (x y : ModelIndex) (value : string) : bool :=
  match isEditableGridModel (model p) with
  | Some e => m_isValidForCell e x y value
  | None => false
  end.

Definition setValueForCell (x y : ModelIndex) (value : string) (w : World)
  : World * ReturnedPromise :=
  match isEditableGridModel (model (proxy w)) with
  | Some _ => (emit (ModelSetValueForCell (mid (model (proxy w))) x y value) w, ModelPromise)
  | None => (w, PromiseReject "Model is not editable")
  end.

Definition setValueForRanges (ranges : list (Z * Z * Z * Z)) (value : string) (w : World)
  : World * ReturnedPromise :=
  match isEditableGridModel (model (proxy w)) with
  | Some _ =>
      (emit (ModelSetValueForRanges (mid (model (proxy w))) ranges value) w, ModelPromise)
  | None => (w, PromiseReject "Model is not editable")
  end.

Definition setValues (edits : list (ModelIndex * ModelIndex * string)) (w : World)
  : World * ReturnedPromise :=
  match isEditableGridModel (model (proxy w)) with
  | Some _ => (emit (ModelSetValues (mid (model (proxy w))) edits) w, ModelPromise)
  | None => (w, PromiseResolve)
  end.

(** ** Construction and the event loop *)

(** [new IrisGridProxyModel(dh, table, ...)]: the backing model built over
    [table] is object 0, the empty [selectDistinct] array has reference 0. *)
Definition constructor (table : Table) : World :=
  let m := makeModel 0 table in
  MkWorld (MkProxy m m None None None (MkArray 0 []) None 0) ∅ 0 1 [].

(** What can happen to a proxy: a call by its owner, or the completion of
    the operation behind one of its wrappers.  [Fulfil pid t] completes a
    derivation with the table [t]; for a wrapper around
    [Promise.resolve(originalModel)] it delivers that model and [t] is not
    looked at.  Such a promise cannot fail, so [Fail] on it does nothing. *)
Inductive Action :=
  | SetRollupConfig (c : option RollupConfig)
  | SetPartitionConfig (c : option PartitionConfig)
  | SetSelectDistinctColumns (names : JsArray ColumnName)
  | SetViewport (top bottom : Z) (cols : option (JsArray Column))
  | AddEventListener
  | RemoveEventListener
  | Close
  | Fulfil (pid : PromiseId) (t : Table)
  | Fail (pid : PromiseId) (e : Err).

Definition state_of (w : World) (r : Result World) : World :=
  match r with
  | Ok w' => w'
  | Throw _ => w
  end.

Definition bump_nextModel (w : World) : World :=
  MkWorld (proxy w) (promises w) (nextPromise w) (S (nextModel w)) (calls w).

(** Completion of the promise given to [setNextModel]: for a derivation,
    [.then(table => makeModel(this.dh, table, this.formatter))] runs first. *)
Definition complete (pid : PromiseId) (t : Table) (w : World) : World :=
  match promises w !! pid with
  | None => w
  | Some p =>
      if settled p then w
      else match underlying p with
           | Immediate m => fulfil closeModel onNextModel pid m w
           | Derived _ =>
               fulfil closeModel onNextModel pid (makeModel (nextModel w) t)
                      (bump_nextModel w)
           end
  end.

Definition fail (pid : PromiseId) (e : Err) (w : World) : World :=
  match promises w !! pid with
  | None => w
  | Some p =>
      match underlying p with
      | Immediate _ => w
      | Derived _ => reject onNextModelFailed pid e w
      end
  end.

Definition step (w : World) (a : Action) : World :=
  match a with
  | SetRollupConfig c => state_of w (set_rollupConfig c w)
  | SetPartitionConfig c => state_of w (set_partitionConfig c w)
  | SetSelectDistinctColumns names => state_of w (set_selectDistinctColumns names w)
  | SetViewport top bottom cols => setViewport top bottom cols w
  | AddEventListener => addEventListener w
  | RemoveEventListener => removeEventListener w
  | Close => close w
  | Fulfil pid t => complete pid t w
  | Fail pid e => fail pid e w
  end.

Definition run (w : World) (tr : list Action) : World := foldl step w tr.

(** *** Observations on the call log *)

Definition is_event (n : EventName) (c : Call) : bool :=
  match c with
  | DispatchEvent n' _ => bool_decide (n' = n)
  | _ => false
  end.

Definition is_dispatch (c : Call) : bool :=
  match c with
  | DispatchEvent _ _ => true
  | _ => false
  end.

Definition is_setViewport (c : Call) : bool :=
  match c with
  | ModelSetViewport _ _ _ _ => true
  | _ => false
  end.

Definition is_close_of (m : ModelId) (c : Call) : bool :=
  match c with
  | ModelClose m' => bool_decide (m' = m)
  | _ => false
  end.

(** The events of kind [n] dispatched by the proxy, newest first. *)
Definition events (n : EventName) (cs : list Call) : list Call := List.filter (is_event n) cs.

(** How many times [close()] was called on model [m]. *)
Definition close_count (m : ModelId) (cs : list Call) : nat :=
  length (List.filter (is_close_of m) cs).

(** Whether the proxy's handler is registered on model [m] for event [e]:
    the most recent registration call for that pair decides. *)
Fixpoint subscribed (cs : list Call) (m : ModelId) (e : EventName) : bool :=
  match cs with
  | [] => false
  | ModelAddEventListener m' e' :: cs' =>
      if bool_decide (m' = m /\ e' = e) then true else subscribed cs' m e
  | ModelRemoveEventListener m' e' :: cs' =>
      if bool_decide (m' = m /\ e' = e) then false else subscribed cs' m e
  | _ :: cs' => subscribed cs' m e
  end.

(** The calls made between world [w] and a later world [w']. *)
Definition new_calls (w w' : World) : list Call :=
  take (length (calls w') - length (calls w)) (calls w').

(** A wrapper is pending while it is neither canceled nor settled. *)
Definition pending (w : World) (pid : PromiseId) : Prop :=
  exists p, promises w !! pid = Some p /\ hasCanceled p = false /\ settled p = false.

(** The calls one [setModel] makes, newest first. *)
Definition setModel_log (m : IrisGridModel) (w : World) : list Call :=
  (if isIrisGridTableModelTemplate m
   then [DispatchEvent TABLE_CHANGED (DTable (source m))] else [])
  ++ (if negb (same_ref (columns (model (proxy w))) (columns m))
      then [DispatchEvent COLUMNS_CHANGED (DColumns (columns m))]
      else match currentViewport (proxy w) with
           | Some vp => [ModelSetViewport (mid m) (vp_top vp) (vp_bottom vp) (vp_columns vp)]
           | None => []
           end)
  ++ (if bool_decide (0 < listenerCount (proxy w))
      then rev (map (ModelAddEventListener (mid m)) EVENT_keys) else [])
  ++ (if negb (same_object (model (proxy w)) (originalModel (proxy w)))
      then [ModelClose (mid (model (proxy w)))] else []).


(** The value of the promise [src] when its derivation yields [t] and the
    next object identity is [n]. *)
Definition result_of (src : Source) (n : ModelId) (t : Table) : IrisGridModel :=
  match src with
  | Immediate m => m
  | Derived _ => makeModel n t
  end.

(** The model a wrapper delivers when its operation completes with [t]. *)
Definition delivered (p : CancelablePromise) (w : World) (t : Table) : IrisGridModel :=
  result_of (underlying p) (nextModel w) t.

(** *** Sample sources *)

Definition ex_columns : JsArray Column := MkArray 7 [MkColumn "A"; MkColumn "B"].

Definition ex_view : BackingView := MkView ex_columns true true true None None None.

Definition ex_flat : Table := MkTable 0 FlatShape ex_view.

(** A rollup of [ex_flat]: hierarchical, with columns of its own. *)
Definition ex_tree : Table :=
  MkTable 1 TreeShape
          (MkView (MkArray 8 [MkColumn "A"]) false false false
                  (Some (MkExpandable true None (fun _ => true) (fun _ => false)
                                      (fun _ => 1%Z)))
                  None None).

(** A flat derivation of [ex_flat] that shares its columns array. *)
Definition ex_flat' : Table := MkTable 2 FlatShape ex_view.

Definition ex_partitioned : Table :=
  MkTable 3 PartitionedShape
          (MkView ex_columns false false true None None
                  (Some (MkPartitioned true [MkColumn "A"]))).

Definition ex_rollup : RollupConfig := MkRollupConfig ["A"] ∅ false None false.

Definition ex_rollup' : RollupConfig := MkRollupConfig ["B"] ∅ false None false.

Definition ex_partition : PartitionConfig := MkPartitionConfig ["p0"] ModePartition.

(** *** The effect of [cancel] and [setNextModel], spelled out *)

Definition mark_canceled (p : CancelablePromise) : CancelablePromise :=
  MkPromise (underlying p) true (settled p) (resolved p).

Definition cancel_store (pid : PromiseId) (ps : gmap PromiseId CancelablePromise)
  : gmap PromiseId CancelablePromise :=
  match ps !! pid with
  | Some p => <[pid := mark_canceled p]> ps
  | None => ps
  end.

Definition cancel_log (pid : PromiseId) (w : World) : list Call :=
  match promises w !! pid with
  | Some p =>
      if hasCanceled p then []
      else if settled p then
        match resolved p with
        | Some m => [ModelClose (mid m)]
        | None => []
        end
      else []
  | None => []
  end.

Definition superseded_store (w : World) : gmap PromiseId CancelablePromise :=
  match modelPromise (proxy w) with
  | Some pid => cancel_store pid (promises w)
  | None => promises w
  end.

Definition setNextModel_log (w : World) : list Call :=
  (if bool_decide (0 < listenerCount (proxy w))
   then rev (map (ModelRemoveEventListener (mid (model (proxy w)))) EVENT_keys)
   else [])
  ++ match modelPromise (proxy w) with
     | Some pid => cancel_log pid w
     | None => []
     end.

(** A proxy over a flat, non-expandable and non-editable source. *)
Definition ex_world : World := constructor ex_flat.

(** The same proxy with a select-distinct reduction on column A in effect. *)
Definition ex_distinct_world : World :=
  run ex_world [SetSelectDistinctColumns (MkArray 1 ["A"]); Fulfil 0 ex_flat'].

(** The proxy right after a rollup was requested: wrapper 0 is pending. *)
Definition ex_pending_world : World := run ex_world [SetRollupConfig (Some ex_rollup)].

Definition ex_pending_promise : CancelablePromise :=
  MkPromise (Derived (Rollup ex_rollup)) false false None.

(** The viewport most recently requested in a trace of actions. *)
Definition last_viewport (tr : list Action) : option Viewport :=
  foldl (fun v a =>
           match a with
           | SetViewport top bottom cols => Some (MkViewport top bottom cols)
           | _ => v
           end) None tr.

(** A proxy over a partitioned source with partition [ex_partition] applied
    and no transition in flight. *)
Definition ex_partition_world : World :=
  run (constructor ex_partitioned)
      [SetPartitionConfig (Some ex_partition); Fulfil 0 ex_flat'].

(** *** The invariant of the promise store *)

(** Every wrapper was allocated below [nextPromise]; a pending wrapper is
    the one in the [modelPromise] slot; the slot, when set, holds the most
    recently allocated wrapper. *)
Record Inv (w : World) : Prop := MkInv {
  inv_allocated : forall pid p, promises w !! pid = Some p -> pid < nextPromise w;
  inv_pending : forall pid, pending w pid -> modelPromise (proxy w) = Some pid;
  inv_slot : forall pid, modelPromise (proxy w) = Some pid -> S pid = nextPromise w
}.

Definition is_completion (a : Action) : bool :=
  match a with
  | Fulfil _ _ | Fail _ _ => true
  | _ => false
  end.


(** The wrappers of [w'] are wrappers of [w], around the same promise and
    with the same cancellation flag. *)
Definition same_origin (w w' : World) : Prop :=
  forall q p', promises w' !! q = Some p' ->
    exists p, promises w !! q = Some p
              /\ underlying p = underlying p' /\ hasCanceled p = hasCanceled p'.

(** *** Event relay *)

(** The proxy has listeners, and its handler is registered exactly on the
    active model, for every event kind, when no transition is in the slot,
    and on no model at all while one is. *)
Definition relaying (w : World) : Prop :=
  0 < listenerCount (proxy w)
  /\ forall m e,
       subscribed (calls w) m e
       = bool_decide (modelPromise (proxy w) = None
                      /\ m = mid (model (proxy w)) /\ e ∈ EVENT_keys).

(** The actions under which the relay is followed: everything but closing
    the proxy, removing a listener from it, and the failure of the
    transition in the slot. *)
Definition relay_action (w : World) (a : Action) : bool :=
  match a with
  | Close | RemoveEventListener => false
  | Fail pid _ => negb (bool_decide (modelPromise (proxy w) = Some pid))
  | _ => true
  end.

Fixpoint relay_trace (w : World) (tr : list Action) : bool :=
  match tr with
  | [] => true
  | a :: tr' => relay_action w a && relay_trace (step w a) tr'
  end.

(** A proxy with one listener, idle, and the same proxy right after a
    rollup was requested. *)
Definition ex_listening_world : World := run (constructor ex_flat) [AddEventListener].

Definition ex_listening_pending_world : World :=
  step ex_listening_world (SetRollupConfig (Some ex_rollup)).

(** *** Closing *)

(** A rollup is applied and swapped in, then cleared; the proxy is closed
    before the wrapper around [Promise.resolve(originalModel)] has
    delivered, and that wrapper's promise resolves afterwards. *)
Definition ex_close_trace : list Action :=
  [SetRollupConfig (Some ex_rollup); Fulfil 0 ex_tree;
   SetRollupConfig None; Close; Fulfil 1 ex_flat].

(** The same, with a second rollup requested in place of closing. *)
Definition ex_supersede_trace : list Action :=
  [SetRollupConfig (Some ex_rollup); Fulfil 0 ex_tree;
   SetRollupConfig None; SetRollupConfig (Some ex_rollup'); Fulfil 1 ex_flat].

(** ** More of the proxy *)

(** [get partitionColumns]. *)
Definition partitionColumns (p : Proxy) : list Column :=
  match isPartitionedGridModelProvider (originalModel p) with
  | Some pm => m_partitionColumns pm
  | None => []
  end.

(** [partitionKeysTable], [partitionMergedTable] and [partitionTable]: the
    request forwarded to the original model (named by its identity), or the
    error thrown when the original model provides no partitions. *)
Definition partitionKeysTable (p : Proxy) : Result (ModelId * Request) :=
  match isPartitionedGridModelProvider (originalModel p) with
  | Some _ => Ok (mid (originalModel p), PartitionKeysTable)
  | None => Throw "Partitions are not available"
  end.

Definition partitionMergedTable (p : Proxy) : Result (ModelId * Request) :=
  match isPartitionedGridModelProvider (originalModel p) with
  | Some _ => Ok (mid (originalModel p), PartitionMergedTable)
  | None => Throw "Partitions are not available"
  end.

Definition partitionTable (parts : list string) (p : Proxy) : Result (ModelId * Request) :=
  match isPartitionedGridModelProvider (originalModel p) with
  | Some _ => Ok (mid (originalModel p), PartitionTable parts)
  | None => Throw "Partitions are not available"
  end.

(** [handleModelEvent]: the handler the proxy registers on a backing model
    re-dispatches the event on the proxy with the same type and detail. *)
Definition handleModelEvent (type : EventName) (detail : Detail) (w : World) : World :=
  emit (DispatchEvent type detail) w.


(** *** The life of the backing models *)

(** The object counter after a wrapper around [src] has delivered. *)
Definition nextModel_after (src : Source) (n : ModelId) : ModelId :=
  match src with
  | Immediate _ => n
  | Derived _ => S n
  end.

(** What holds of the models of a proxy built over [t0] as long as it has
    not been closed: the original model is object 0 over [t0]; the active
    model is the original one or an object built since; a wrapper around an
    already resolved promise holds the original model; the wrapper in the
    slot has nothing delivered to dispose of; and every object built since
    the original one is closed once, or not at all when it is the active
    model. *)
Record Life (t0 : Table) (w : World) : Prop := MkLife {
  life_original : originalModel (proxy w) = makeModel 0 t0;
  life_next : 1 <= nextModel w;
  life_active :
    model (proxy w) = originalModel (proxy w)
    \/ exists n t, 1 <= n < nextModel w /\ model (proxy w) = makeModel n t;
  life_immediate :
    forall pid p m, promises w !! pid = Some p -> underlying p = Immediate m ->
                    m = originalModel (proxy w);
  life_slot :
    forall pid p, modelPromise (proxy w) = Some pid -> promises w !! pid = Some p ->
                  hasCanceled p = true \/ resolved p = None;
  life_closed :
    forall n, 1 <= n ->
      close_count n (calls w)
      = if bool_decide (n < nextModel w /\ n <> mid (model (proxy w))) then 1 else 0
}.

Definition is_close_action (a : Action) : bool :=
  match a with
  | Close => true
  | _ => false
  end.

Definition is_setter (a : Action) : bool :=
  match a with
  | SetRollupConfig _ | SetPartitionConfig _ | SetSelectDistinctColumns _ => true
  | _ => false
  end.

(** What holds of a proxy once [close] has run, while the operations still
    in flight complete: no wrapper is pending, a wrapper around an already
    resolved promise holds object 0, the original model has been closed, and
    every object built since the original one has been closed once. *)
Record Closed (w : World) : Prop := MkClosed {
  closed_pending : forall pid, ~ pending w pid;
  closed_immediate :
    forall pid p m, promises w !! pid = Some p -> underlying p = Immediate m -> mid m = 0;
  closed_original : 1 <= close_count 0 (calls w);
  closed_counts :
    forall n, 1 <= n ->
      close_count n (calls w) = if bool_decide (n < nextModel w) then 1 else 0
}.

(** Two rollups in a row, each swapped in. *)
Definition ex_two_rollups_trace : list Action :=
  [SetRollupConfig (Some ex_rollup); Fulfil 0 ex_tree;
   SetRollupConfig (Some ex_rollup'); Fulfil 1 ex_tree].

(** An event of kind [type] fired by the backing model [m]: it reaches
    [handleModelEvent] when the proxy's handler is registered on [m] for
    that kind, and is lost on the proxy otherwise. *)
Definition modelEvent (m : ModelId) (type : EventName) (detail : Detail) (w : World)
  : World :=
  if subscribed (calls w) m type then handleModelEvent type detail w else w.

(** ** useBroadcastLoginListener

    [packages/jsapi-components/src/useBroadcastLoginListener.ts].  The type
    guards [isBroadcastLoginMessage] and [isBroadcastLogoutMessage] come
    from [@deephaven/jsapi-utils] and are taken as parameters. *)

Section BroadcastLogin.

Variable Message : Type.
Variable isBroadcastLoginMessage : Message -> bool.
Variable isBroadcastLogoutMessage : Message -> bool.

(** A call of one of the two optional callbacks, with its argument. *)
Inductive Invocation :=
  | OnLogin (message : Message)
  | OnLogout (message : Message).

(** [onMessage]: [onLogin] and [onLogout] tell whether the callback was
    given; the result lists the callbacks invoked on [event.data]. *)
Definition onMessage (onLogin onLogout : bool) (data : Message) : list Invocation :=
  if isBroadcastLoginMessage data then
    if onLogin then [OnLogin data] else []
  else if isBroadcastLogoutMessage data then
    if onLogout then [OnLogout data] else []
  else [].

End BroadcastLogin.
Arguments OnLogin {Message} _.
Arguments OnLogout {Message} _.

(** A proxy whose first listener was added while a rollup was pending, once
    the rollup model has been swapped in. *)
Definition ex_late_listener_world : World :=
  run (constructor ex_flat)
      [SetRollupConfig (Some ex_rollup); AddEventListener; Fulfil 0 ex_tree].
(** ** Basic facts about the log and the frame of each method *)

Lemma new_calls_app (w w' : World) (l : list Call) :
  calls w' = l ++ calls w -> new_calls w w' = l.
Proof.
  intros H. unfold new_calls. rewrite H, length_app.
  replace (length l + length (calls w) - length (calls w)) with (length l) by lia.
  by rewrite take_app_length.
Qed.

Lemma new_calls_cons (w w' : World) (c : Call) :
  calls w' = c :: calls w -> new_calls w w' = [c].
Proof. intros H. by apply (new_calls_app w w' [c]). Qed.

Lemma new_calls_same (w w' : World) : calls w' = calls w -> new_calls w w' = [].
Proof. intros H. by apply (new_calls_app w w' []). Qed.

Lemma emit_all_eq (f : EventName -> Call) (l : list EventName) (w : World) :
  foldl (fun w e => emit (f e) w) w l
  = MkWorld (proxy w) (promises w) (nextPromise w) (nextModel w)
            (rev (map f l) ++ calls w).
Proof.
  revert w. induction l as [|e l IH]; intros w; simpl.
  - by destruct w.
  - rewrite IH. simpl. by rewrite <- app_assoc.
Qed.

Lemma addListeners_eq (m : IrisGridModel) (w : World) :
  addListeners m w
  = MkWorld (proxy w) (promises w) (nextPromise w) (nextModel w)
            (rev (map (ModelAddEventListener (mid m)) EVENT_keys) ++ calls w).
Proof. apply emit_all_eq. Qed.

Lemma removeListeners_eq (m : IrisGridModel) (w : World) :
  removeListeners m w
  = MkWorld (proxy w) (promises w) (nextPromise w) (nextModel w)
            (rev (map (ModelRemoveEventListener (mid m)) EVENT_keys) ++ calls w).
Proof. apply emit_all_eq. Qed.

Lemma setModel_eq (m : IrisGridModel) (w : World) :
  setModel m w
  = MkWorld (set_model m (proxy w)) (promises w) (nextPromise w) (nextModel w)
            (setModel_log m w ++ calls w).
Proof.
  unfold setModel, setModel_log.
  destruct (negb (same_object (model (proxy w)) (originalModel (proxy w))));
    simpl; destruct (bool_decide (0 < listenerCount (proxy w)));
    rewrite ?addListeners_eq; simpl;
    destruct (negb (same_ref (columns (model (proxy w))) (columns m)));
    simpl; try destruct (currentViewport (proxy w));
    destruct (isIrisGridTableModelTemplate m); simpl;
    rewrite <- ?app_assoc; reflexivity.
Qed.

Lemma filter_listener_calls (f : Call -> bool) (g : EventName -> Call) (l : list EventName) :
  (forall e, f (g e) = false) -> List.filter f (rev (map g l)) = [].
Proof.
  intros H. induction l as [|e l IH]; simpl; [done|].
  rewrite List.filter_app, IH. simpl. by rewrite H.
Qed.

Lemma complete_pending (pid : PromiseId) (t : Table) (w : World) (p : CancelablePromise) :
  promises w !! pid = Some p -> hasCanceled p = false -> settled p = false ->
  calls (complete pid t w) = setModel_log (delivered p w t) w ++ calls w
  /\ proxy (complete pid t w)
     = set_model (delivered p w t) (set_modelPromise None (proxy w)).
Proof.
  intros Hp Hc Hs. unfold complete, delivered, result_of. rewrite Hp, Hs.
  destruct (underlying p) as [m|r]; unfold fulfil; simpl; rewrite Hp, Hs, Hc;
    unfold onNextModel; rewrite setModel_eq; simpl; done.
Qed.

(** ** Availability getters *)

Lemma rollup_unavailable_with_selectDistinct (p : Proxy) :
  0 < length (items (selectDistinct p)) -> isRollupAvailable p = false.
Proof.
  intros H. unfold isRollupAvailable.
  rewrite (bool_decide_eq_false_2 (length (items (selectDistinct p)) = 0)) by lia.
  apply andb_false_r.
Qed.

Lemma selectDistinct_unavailable_with_rollup (p : Proxy) :
  rollup p <> None -> isSelectDistinctAvailable p = false.
Proof.
  intros H. unfold isSelectDistinctAvailable.
  rewrite (bool_decide_eq_false_2 (rollup p = None)) by done.
  apply andb_false_r.
Qed.

(** ** [cancel] and [setNextModel] *)

Lemma cancelPromise_eq (pid : PromiseId) (w : World) :
  cancelPromise pid w
  = MkWorld (proxy w) (cancel_store pid (promises w)) (nextPromise w) (nextModel w)
            (cancel_log pid w ++ calls w).
Proof.
  unfold cancelPromise, cancel, cancel_store, cancel_log.
  destruct (promises w !! pid) as [p|] eqn:Hp; [|by destruct w].
  destruct (hasCanceled p) eqn:Hc.
  - rewrite insert_id; [by destruct w|].
    rewrite Hp. f_equal. destruct p; simpl in *; by subst.
  - unfold mark_canceled.
    destruct (settled p); [destruct (resolved p)|]; reflexivity.
Qed.

Lemma setNextModel_eq (src : Source) (w : World) :
  setNextModel src w
  = MkWorld (set_modelPromise (Some (nextPromise w)) (proxy w))
            (<[nextPromise w := MkPromise src false false None]> (superseded_store w))
            (S (nextPromise w)) (nextModel w)
            (setNextModel_log w ++ calls w).
Proof.
  unfold setNextModel, setNextModel_log, superseded_store.
  destruct (modelPromise (proxy w)) as [pid|].
  - rewrite cancelPromise_eq. simpl.
    destruct (bool_decide (0 < listenerCount (proxy w)));
      rewrite ?removeListeners_eq; simpl; rewrite <- ?app_assoc; reflexivity.
  - destruct (bool_decide (0 < listenerCount (proxy w)));
      rewrite ?removeListeners_eq; simpl; rewrite ?app_nil_r; reflexivity.
Qed.

(** A configuration setter, when it does not throw or return early, records
    the value and hands a promise to [setNextModel]. *)
Lemma set_rollupConfig_cases (c : option RollupConfig) (w : World) :
  set_rollupConfig c w = Throw "Rollup Rows are not available"
  \/ set_rollupConfig c w = Ok w
  \/ exists src, set_rollupConfig c w = Ok (setNextModel src (upd_proxy (set_rollup c) w)).
Proof.
  unfold set_rollupConfig.
  destruct (negb (isRollupAvailable (proxy w))); [by left|].
  destruct (deepEqual c (rollup (proxy w))); [by right; left|].
  right; right. eauto.
Qed.

Lemma set_partitionConfig_cases (c : option PartitionConfig) (w : World) :
  set_partitionConfig c w = Throw "Partitions are not available"
  \/ exists src,
       set_partitionConfig c w = Ok (setNextModel src (upd_proxy (set_partition c) w)).
Proof.
  unfold set_partitionConfig.
  destruct (negb (isPartitionRequired (proxy w))); [by left|].
  right. eauto.
Qed.

Lemma set_selectDistinctColumns_cases (names : JsArray ColumnName) (w : World) :
  set_selectDistinctColumns names w = Throw "Select distinct is not available"
  \/ set_selectDistinctColumns names w = Ok w
  \/ exists src,
       set_selectDistinctColumns names w
       = Ok (setNextModel src (upd_proxy (set_selectDistinct names) w)).
Proof.
  unfold set_selectDistinctColumns.
  destruct (negb (isSelectDistinctAvailable (proxy w))); [by left|].
  destruct (_ || _); [by right; left|].
  right; right. eauto.
Qed.

(** C4: in every reachable state of the proxy, [isRollupAvailable] is false
    whenever the stored select-distinct column list is non-empty and
    [isSelectDistinctAvailable] is false whenever a rollup configuration is
    stored, so the two getters are never both true once either
    configuration is non-empty; the setters of one configuration leave the
    stored value of the other untouched. *)
Theorem availability_mutually_exclusive (t : Table) (tr : list Action) :
  let w := run (constructor t) tr in
  (0 < length (items (selectDistinct (proxy w))) -> isRollupAvailable (proxy w) = false)
  /\ (rollup (proxy w) <> None -> isSelectDistinctAvailable (proxy w) = false)
  /\ (0 < length (items (selectDistinct (proxy w))) \/ rollup (proxy w) <> None ->
      isRollupAvailable (proxy w) && isSelectDistinctAvailable (proxy w) = false)
  /\ (forall c,
        selectDistinct (proxy (step w (SetRollupConfig c))) = selectDistinct (proxy w))
  /\ (forall names,
        rollup (proxy (step w (SetSelectDistinctColumns names))) = rollup (proxy w)).
Proof.
  intros w. repeat split.
  - apply rollup_unavailable_with_selectDistinct.
  - apply selectDistinct_unavailable_with_rollup.
  - intros [H|H].
    + by rewrite rollup_unavailable_with_selectDistinct.
    + rewrite selectDistinct_unavailable_with_rollup by done. apply andb_false_r.
  - intros c. change (step w (SetRollupConfig c)) with (state_of w (set_rollupConfig c w)).
    destruct (set_rollupConfig_cases c w) as [->|[->|[src ->]]];
      cbn [state_of]; try done.
    by rewrite setNextModel_eq.
  - intros names.
    change (step w (SetSelectDistinctColumns names))
      with (state_of w (set_selectDistinctColumns names w)).
    destruct (set_selectDistinctColumns_cases names w) as [->|[->|[src ->]]];
      cbn [state_of]; try done.
    by rewrite setNextModel_eq.
Qed.

Lemma availability_mutually_exclusive_witness :
  let w := run (constructor ex_flat) [SetSelectDistinctColumns (MkArray 1 ["A"])] in
  isRollupAvailable (proxy w) = false
  /\ isRollupAvailable (proxy w) && isSelectDistinctAvailable (proxy w) = false.
Proof.
  intros w.
  destruct (availability_mutually_exclusive ex_flat
              [SetSelectDistinctColumns (MkArray 1 ["A"])]) as (H1 & _ & H3 & _).
  split.
  - apply H1. vm_compute. lia.
  - apply H3. left. vm_compute. lia.
Defined.

(** C10: [isCustomColumnsAvailable] is false whenever a select-distinct
    transformation is in effect ([isSelectDistinctAvailable] holds and
    [selectDistinctColumns] is non-empty), whatever the active model
    reports; in every other state it is what the active model reports. *)
Theorem isCustomColumnsAvailable_spec (p : Proxy) :
  (isSelectDistinctAvailable p = true /\ 0 < length (items (selectDistinctColumns p)) ->
   isCustomColumnsAvailable p = false)
  /\ (~ (isSelectDistinctAvailable p = true
         /\ 0 < length (items (selectDistinctColumns p))) ->
      isCustomColumnsAvailable p = v_isCustomColumnsAvailable (view (source (model p)))).
Proof.
  unfold isCustomColumnsAvailable. split.
  - intros [-> H]. rewrite bool_decide_eq_true_2 by done. apply andb_false_r.
  - intros H.
    destruct (isSelectDistinctAvailable p); simpl; [|apply andb_true_r].
    rewrite bool_decide_eq_false_2; [apply andb_true_r|]. intros H'. by apply H.
Qed.

Lemma isCustomColumnsAvailable_spec_witness :
  v_isCustomColumnsAvailable (view (source (model (proxy ex_distinct_world)))) = true
  /\ isCustomColumnsAvailable (proxy ex_distinct_world) = false
  /\ isCustomColumnsAvailable (proxy ex_world) = true.
Proof.
  split; [reflexivity|]. split.
  - apply (isCustomColumnsAvailable_spec (proxy ex_distinct_world)).
    split; [reflexivity | vm_compute; lia].
  - rewrite (proj2 (isCustomColumnsAvailable_spec (proxy ex_world))); [reflexivity|].
    intros [_ H]. vm_compute in H. lia.
Defined.

(** ** Optional capabilities *)

(** C9, as the code has it: on an active model that is not expandable,
    [setRowExpanded], [expandAll] and [collapseAll] throw their explicit
    error and leave the world as it was, while [isRowExpandable] and
    [isRowExpanded] answer false and [depthForRow] answers 0; on an active
    model that is not editable, [isValidForCell] answers false,
    [editValueForCell] the empty string, [setValueForCell] and
    [setValueForRanges] return a promise rejected with "Model is not
    editable", and [setValues] returns a resolved promise; none of them
    changes the world. *)
Theorem capability_unavailable_policy (w : World) :
  (isExpandableGridModel (model (proxy w)) = None ->
   (forall y e d, setRowExpanded y e d w
                  = Throw "Function setRowExpanded does not exist on IrisGridTableModel")
   /\ expandAll w = Throw "Function expandAll does not exist on IrisGridTableModel"
   /\ collapseAll w = Throw "Function collapseAll does not exist on IrisGridTableModel"
   /\ (forall y, isRowExpandable (proxy w) y = false)
   /\ (forall y, isRowExpanded (proxy w) y = false)
   /\ (forall y, depthForRow (proxy w) y = 0%Z))
  /\ (isEditableGridModel (model (proxy w)) = None ->
      (forall x y v, isValidForCell (proxy w) x y v = false)
      /\ (forall x y, editValueForCell (proxy w) x y = EmptyString)
      /\ (forall x y v, setValueForCell x y v w = (w, PromiseReject "Model is not editable"))
      /\ (forall r v, setValueForRanges r v w = (w, PromiseReject "Model is not editable"))
      /\ (forall edits, setValues edits w = (w, PromiseResolve))).
Proof.
  split; intros H.
  - unfold setRowExpanded, expandAll, collapseAll, isRowExpandable, isRowExpanded,
      depthForRow. rewrite H. done.
  - unfold isValidForCell, editValueForCell, setValueForCell, setValueForRanges,
      setValues. rewrite H. done.
Qed.

Lemma capability_unavailable_policy_witness :
  setRowExpanded 3%Z true false ex_world
  = Throw "Function setRowExpanded does not exist on IrisGridTableModel"
  /\ setValueForCell 0%Z 0%Z "v" ex_world = (ex_world, PromiseReject "Model is not editable").
Proof.
  destruct (capability_unavailable_policy ex_world) as [H1 H2]. split.
  - apply H1. reflexivity.
  - apply H2. reflexivity.
Defined.

(** C9 as stated fails: [setValues] on a model that is not editable does
    not fail, it returns a resolved promise. *)
Lemma setValues_not_editable_resolves :
  isEditableGridModel (model (proxy ex_world)) = None
  /\ setValues [(0%Z, 0%Z, "v")] ex_world = (ex_world, PromiseResolve)
  /\ ~ (exists msg, snd (setValues [(0%Z, 0%Z, "v")] ex_world) = PromiseReject msg).
Proof.
  split; [reflexivity|]. split; [reflexivity|].
  intros [msg H]. discriminate H.
Qed.

(** ** What one swap puts on the log *)

Lemma setModel_log_columns_events (m : IrisGridModel) (w : World) :
  events COLUMNS_CHANGED (setModel_log m w)
  = if same_ref (columns (model (proxy w))) (columns m) then []
    else [DispatchEvent COLUMNS_CHANGED (DColumns (columns m))].
Proof.
  unfold events, setModel_log. rewrite !List.filter_app.
  replace (List.filter (is_event COLUMNS_CHANGED)
             (if bool_decide (0 < listenerCount (proxy w))
              then rev (map (ModelAddEventListener (mid m)) EVENT_keys) else []))
    with (@nil Call)
    by (destruct (bool_decide _); [by rewrite filter_listener_calls | done]).
  destruct (isIrisGridTableModelTemplate m), (same_ref _ _),
    (negb (same_object _ _)); simpl; try destruct (currentViewport (proxy w));
    reflexivity.
Qed.

Lemma setModel_log_viewport_calls (m : IrisGridModel) (w : World) :
  List.filter is_setViewport (setModel_log m w)
  = if same_ref (columns (model (proxy w))) (columns m)
    then match currentViewport (proxy w) with
         | Some vp => [ModelSetViewport (mid m) (vp_top vp) (vp_bottom vp) (vp_columns vp)]
         | None => []
         end
    else [].
Proof.
  unfold setModel_log. rewrite !List.filter_app.
  replace (List.filter is_setViewport
             (if bool_decide (0 < listenerCount (proxy w))
              then rev (map (ModelAddEventListener (mid m)) EVENT_keys) else []))
    with (@nil Call)
    by (destruct (bool_decide _); [by rewrite filter_listener_calls | done]).
  destruct (isIrisGridTableModelTemplate m), (same_ref _ _),
    (negb (same_object _ _)); simpl; try destruct (currentViewport (proxy w));
    reflexivity.
Qed.



Lemma ex_pending_lookup : promises ex_pending_world !! 0 = Some ex_pending_promise.
Proof. vm_compute. reflexivity. Qed.



(** ** The frame of one step *)

(** Splits a goal about [step w a] into the outcomes of [a]. *)
Ltac step_cases w a :=
  destruct a as [c|c|names|top bottom cols| | | |pid t|pid e]; cbn [step];
  [ destruct (set_rollupConfig_cases c w) as [->|[->|[src ->]]];
    cbn [state_of]; rewrite ?setNextModel_eq
  | destruct (set_partitionConfig_cases c w) as [->|[src ->]];
    cbn [state_of]; rewrite ?setNextModel_eq
  | destruct (set_selectDistinctColumns_cases names w) as [->|[->|[src ->]]];
    cbn [state_of]; rewrite ?setNextModel_eq
  | unfold setViewport
  | unfold addEventListener, startListening;
    destruct (bool_decide (listenerCount (proxy w) = 0)); rewrite ?addListeners_eq
  | unfold removeEventListener, stopListening;
    destruct (listenerCount (proxy w)) as [|n];
    [|destruct (bool_decide (n = 0)); rewrite ?removeListeners_eq]
  | unfold close;
    destruct (negb (same_object (model (proxy w)) (originalModel (proxy w))));
    destruct (modelPromise (proxy w)); rewrite ?cancelPromise_eq
  | unfold complete, fulfil;
    destruct (promises w !! pid) as [p|] eqn:Hp; [|idtac];
    [destruct (settled p) eqn:Hs; [|destruct (underlying p) as [m0|r] eqn:Hu;
       cbn [promises bump_nextModel]; rewrite ?Hp, ?Hs;
       (destruct (hasCanceled p) eqn:Hc;
        [unfold closeModel | unfold onNextModel; rewrite setModel_eq])]|]
  | unfold fail, reject, onNextModelFailed;
    destruct (promises w !! pid) as [p|] eqn:Hp; [|idtac];
    [destruct (underlying p) as [m0|r] eqn:Hu;
     [|destruct (settled p) eqn:Hs;
       [|destruct (hasCanceled p) eqn:Hc; [|destruct (isCanceled e) eqn:He]]]|] ].

Lemma currentViewport_step (w : World) (a : Action) :
  currentViewport (proxy (step w a))
  = match a with
    | SetViewport top bottom cols => Some (MkViewport top bottom cols)
    | _ => currentViewport (proxy w)
    end.
Proof. step_cases w a; reflexivity. Qed.

Lemma run_snoc (w : World) (tr : list Action) (a : Action) :
  run w (tr ++ [a]) = step (run w tr) a.
Proof. unfold run. by rewrite foldl_snoc. Qed.

Lemma currentViewport_run (t : Table) (tr : list Action) :
  currentViewport (proxy (run (constructor t) tr)) = last_viewport tr.
Proof.
  induction tr as [|a tr IH] using rev_ind; [reflexivity|].
  rewrite run_snoc, currentViewport_step, IH.
  unfold last_viewport. rewrite foldl_snoc. by destruct a.
Qed.

(** C5: when a pending transition resolves and [setModel] installs the new
    model: if the new model's columns are not the same array as the old
    model's, exactly one columns-changed event carrying the new columns is
    dispatched and no viewport is applied; otherwise no columns-changed
    event is dispatched and, if a viewport was requested before through
    [setViewport], exactly one [setViewport] call with the arguments of the
    latest request is made on the new model. *)
Theorem swap_reconciliation
  (t0 : Table) (tr : list Action) (pid : PromiseId) (t : Table) (p : CancelablePromise) :
  let w := run (constructor t0) tr in
  promises w !! pid = Some p -> hasCanceled p = false -> settled p = false ->
  let m := delivered p w t in
  let w' := complete pid t w in
  model (proxy w') = m
  /\ (same_ref (columns (model (proxy w))) (columns m) = false ->
      events COLUMNS_CHANGED (new_calls w w')
      = [DispatchEvent COLUMNS_CHANGED (DColumns (columns m))]
      /\ List.filter is_setViewport (new_calls w w') = [])
  /\ (same_ref (columns (model (proxy w))) (columns m) = true ->
      events COLUMNS_CHANGED (new_calls w w') = []
      /\ List.filter is_setViewport (new_calls w w')
         = match last_viewport tr with
           | Some vp =>
               [ModelSetViewport (mid m) (vp_top vp) (vp_bottom vp) (vp_columns vp)]
           | None => []
           end).
Proof.
  intros w Hp Hc Hs m w'.
  destruct (complete_pending pid t w p Hp Hc Hs) as [Hcalls Hproxy].
  fold m in Hcalls, Hproxy. fold w' in Hcalls, Hproxy.
  rewrite (new_calls_app w w' _ Hcalls), setModel_log_columns_events,
    setModel_log_viewport_calls.
  replace (currentViewport (proxy w)) with (last_viewport tr)
    by (symmetry; apply currentViewport_run).
  split; [by rewrite Hproxy|].
  split; intros ->; split; reflexivity.
Qed.

Lemma swap_reconciliation_witness :
  let tr := [SetViewport 5%Z 50%Z None; SetRollupConfig (Some ex_rollup)] in
  let w := run (constructor ex_flat) tr in
  (events COLUMNS_CHANGED (new_calls w (complete 0 ex_flat' w)) = []
   /\ List.filter is_setViewport (new_calls w (complete 0 ex_flat' w))
      = [ModelSetViewport 1 5%Z 50%Z None])
  /\ (events COLUMNS_CHANGED (new_calls w (complete 0 ex_tree w))
      = [DispatchEvent COLUMNS_CHANGED (DColumns (MkArray 8 [MkColumn "A"]))]
      /\ List.filter is_setViewport (new_calls w (complete 0 ex_tree w)) = []).
Proof.
  intros tr w.
  assert (Hp : promises w !! 0 = Some ex_pending_promise) by (vm_compute; reflexivity).
  split.
  - apply (swap_reconciliation ex_flat tr 0 ex_flat' ex_pending_promise Hp eq_refl eq_refl).
    reflexivity.
  - apply (swap_reconciliation ex_flat tr 0 ex_tree ex_pending_promise Hp eq_refl eq_refl).
    reflexivity.
Defined.

(** ** Failure and cancellation of a transition *)

Lemma cancelPromise_pending (pid : PromiseId) (w : World) (p : CancelablePromise) :
  promises w !! pid = Some p -> hasCanceled p = false -> settled p = false ->
  cancelPromise pid w
  = MkWorld (proxy w) (<[pid := mark_canceled p]> (promises w)) (nextPromise w)
            (nextModel w) (calls w).
Proof.
  intros Hp Hc Hs. rewrite cancelPromise_eq. unfold cancel_store, cancel_log.
  by rewrite Hp, Hc, Hs.
Qed.

(** C3: when a pending transition fails for a reason other than
    cancellation, the pending-transition slot is cleared, exactly one
    request-failed event carrying the error is dispatched and nothing else
    is called, and the active model is unchanged; when a pending transition
    is canceled, nothing is called at that moment, and whatever its
    operation does afterwards (complete or fail) dispatches no event; the
    active model is unchanged throughout. *)
Theorem failed_and_canceled_transitions
  (w : World) (pid : PromiseId) (p : CancelablePromise) (r : Request) :
  promises w !! pid = Some p -> hasCanceled p = false -> settled p = false ->
  underlying p = Derived r ->
  (forall e, isCanceled e = false ->
     let w' := fail pid e w in
     modelPromise (proxy w') = None
     /\ new_calls w w' = [DispatchEvent REQUEST_FAILED (DError e)]
     /\ model (proxy w') = model (proxy w))
  /\ (let wc := cancelPromise pid w in
      new_calls w wc = []
      /\ proxy wc = proxy w
      /\ (forall t, List.filter is_dispatch (new_calls wc (complete pid t wc)) = []
                    /\ proxy (complete pid t wc) = proxy w)
      /\ (forall e, List.filter is_dispatch (new_calls wc (fail pid e wc)) = []
                    /\ proxy (fail pid e wc) = proxy w)).
Proof.
  intros Hp Hc Hs Hu. split.
  - intros e He w'. unfold w', fail, reject, onNextModelFailed.
    rewrite Hp, Hu, Hs, Hc, He. simpl.
    split; [reflexivity|]. split; [|reflexivity].
    by apply new_calls_app.
  - cbn zeta. rewrite (cancelPromise_pending pid w p Hp Hc Hs).
    split; [by apply new_calls_app|]. split; [reflexivity|]. split.
    + intros t. unfold complete, fulfil. cbn [promises bump_nextModel].
      rewrite !lookup_insert_eq. unfold mark_canceled.
      cbn [settled underlying hasCanceled]. rewrite Hs, Hu.
      cbn [promises]. rewrite ?lookup_insert_eq. cbn [settled hasCanceled]. rewrite ?Hs.
      unfold closeModel. simpl. split; [|reflexivity].
      erewrite new_calls_cons; [|simpl; reflexivity]. reflexivity.
    + intros e. unfold fail, reject. cbn [promises].
      rewrite !lookup_insert_eq. unfold mark_canceled.
      cbn [settled underlying hasCanceled].
      rewrite Hs, Hu. simpl. split; [|reflexivity].
      erewrite new_calls_same; [|simpl; reflexivity]. reflexivity.
Qed.

Lemma failed_and_canceled_transitions_witness :
  new_calls ex_pending_world (fail 0 (Failure "boom") ex_pending_world)
  = [DispatchEvent REQUEST_FAILED (DError (Failure "boom"))]
  /\ new_calls ex_pending_world (cancelPromise 0 ex_pending_world) = [].
Proof.
  destruct (failed_and_canceled_transitions ex_pending_world 0 ex_pending_promise
              (Rollup ex_rollup) ex_pending_lookup eq_refl eq_refl eq_refl) as [H1 H2].
  split.
  - apply (H1 (Failure "boom") eq_refl).
  - apply H2.
Defined.

(** ** Setting a configuration to the value it has *)

(** C2 as stated fails for two of the three setters.  On a proxy whose
    stored partition configuration is [ex_partition], setting it to
    [ex_partition] again starts transition 1; on a proxy whose stored
    select-distinct list is the array [A], setting another array with the
    same contents starts transition 1 too. *)
Lemma equal_value_starts_transition :
  (partition (proxy ex_partition_world) = Some ex_partition
   /\ modelPromise (proxy ex_partition_world) = None
   /\ modelPromise (proxy (step ex_partition_world (SetPartitionConfig (Some ex_partition))))
      = Some 1
   /\ step ex_partition_world (SetPartitionConfig (Some ex_partition))
      <> ex_partition_world)
  /\ (items (selectDistinct (proxy ex_distinct_world)) = ["A"]
      /\ modelPromise (proxy ex_distinct_world) = None
      /\ modelPromise
           (proxy (step ex_distinct_world (SetSelectDistinctColumns (MkArray 2 ["A"]))))
         = Some 1
      /\ step ex_distinct_world (SetSelectDistinctColumns (MkArray 2 ["A"]))
         <> ex_distinct_world).
Proof.
  split; (split; [reflexivity|]; split; [reflexivity|]; split; [reflexivity|]).
  - intros H. apply (f_equal nextPromise) in H. vm_compute in H. discriminate H.
  - intros H. apply (f_equal nextPromise) in H. vm_compute in H. discriminate H.
Qed.

(** A setter that gets past its checks records its value and leaves a new
    wrapper pending in the slot. *)
Lemma setNextModel_started (src : Source) (f : Proxy -> Proxy) (w : World) :
  let w' := setNextModel src (upd_proxy f w) in
  proxy w' = set_modelPromise (Some (nextPromise w)) (f (proxy w))
  /\ nextPromise w' = S (nextPromise w)
  /\ pending w' (nextPromise w).
Proof.
  cbn zeta. rewrite setNextModel_eq. split; [done|]. split; [done|].
  exists (MkPromise src false false None). cbn [promises nextPromise upd_proxy].
  by rewrite lookup_insert_eq.
Qed.

(** C2, as the code has it.  Each setter first checks that its
    configuration is available and throws otherwise, whatever the value.
    When rollup rows are available, setting [rollupConfig] returns without
    doing anything (same world: no transition, no call, no event) exactly
    when the value is deep-equal to the stored one, and otherwise records
    it and starts a new transition.  When select distinct is available,
    setting [selectDistinctColumns] returns without doing anything exactly
    when the new array is the stored array itself or both arrays are empty;
    otherwise, and so for a non-empty array with the stored contents but
    another identity, it stores the array and starts a new transition.
    When partitions are required, setting [partitionConfig] always records
    the value and starts a new transition, also for the stored value. *)
Theorem equal_configuration_setters (w : World) :
  (forall c,
     (isRollupAvailable (proxy w) = false ->
      set_rollupConfig c w = Throw "Rollup Rows are not available")
     /\ (isRollupAvailable (proxy w) = true -> deepEqual c (rollup (proxy w)) = true ->
         set_rollupConfig c w = Ok w)
     /\ (isRollupAvailable (proxy w) = true -> deepEqual c (rollup (proxy w)) = false ->
         exists w', set_rollupConfig c w = Ok w'
                    /\ rollup (proxy w') = c
                    /\ modelPromise (proxy w') = Some (nextPromise w)
                    /\ nextPromise w' = S (nextPromise w)
                    /\ pending w' (nextPromise w)))
  /\ (forall names,
        (isSelectDistinctAvailable (proxy w) = false ->
         set_selectDistinctColumns names w = Throw "Select distinct is not available")
        /\ (isSelectDistinctAvailable (proxy w) = true ->
            same_ref names (selectDistinct (proxy w)) = true
            \/ (items names = [] /\ items (selectDistinct (proxy w)) = []) ->
            set_selectDistinctColumns names w = Ok w)
        /\ (isSelectDistinctAvailable (proxy w) = true ->
            same_ref names (selectDistinct (proxy w)) = false ->
            items names <> [] \/ items (selectDistinct (proxy w)) <> [] ->
            exists w', set_selectDistinctColumns names w = Ok w'
                       /\ selectDistinct (proxy w') = names
                       /\ modelPromise (proxy w') = Some (nextPromise w)
                       /\ nextPromise w' = S (nextPromise w)
                       /\ pending w' (nextPromise w))
        /\ (isSelectDistinctAvailable (proxy w) = true ->
            same_ref names (selectDistinct (proxy w)) = false ->
            items names = items (selectDistinct (proxy w)) -> items names <> [] ->
            exists w', set_selectDistinctColumns names w = Ok w'
                       /\ modelPromise (proxy w') = Some (nextPromise w)
                       /\ nextPromise w' = S (nextPromise w)))
  /\ (forall c,
        (isPartitionRequired (proxy w) = false ->
         set_partitionConfig c w = Throw "Partitions are not available")
        /\ (isPartitionRequired (proxy w) = true ->
            exists w', set_partitionConfig c w = Ok w'
                       /\ partition (proxy w') = c
                       /\ modelPromise (proxy w') = Some (nextPromise w)
                       /\ nextPromise w' = S (nextPromise w)
                       /\ pending w' (nextPromise w))).
Proof.
  assert (Hsd : forall names,
            isSelectDistinctAvailable (proxy w) = true ->
            same_ref names (selectDistinct (proxy w)) = false ->
            items names <> [] \/ items (selectDistinct (proxy w)) <> [] ->
            exists w', set_selectDistinctColumns names w = Ok w'
                       /\ selectDistinct (proxy w') = names
                       /\ modelPromise (proxy w') = Some (nextPromise w)
                       /\ nextPromise w' = S (nextPromise w)
                       /\ pending w' (nextPromise w)).
  { intros names Hav Href Hne. unfold set_selectDistinctColumns, selectDistinctColumns.
    rewrite Hav, Href. cbn [negb orb].
    assert (Hnot : bool_decide (length (items names) = 0)
                   && bool_decide (length (items (selectDistinct (proxy w))) = 0) = false).
    { apply andb_false_iff.
      destruct Hne as [Hne|Hne]; [left|right]; apply bool_decide_eq_false_2;
        intros Hlen; by apply Hne, nil_length_inv. }
    rewrite Hnot. eexists. split; [reflexivity|].
    match goal with
    | |- context [setNextModel ?src (upd_proxy ?f w)] =>
        destruct (setNextModel_started src f w) as (Hproxy & Hnext & Hpend)
    end.
    rewrite Hproxy. done. }
  split; [|split].
  - intros c. unfold set_rollupConfig. split; [by intros ->|].
    split; [by intros -> ->|]. intros -> ->. cbn [negb].
    eexists. split; [reflexivity|].
    match goal with
    | |- context [setNextModel ?src (upd_proxy ?f w)] =>
        destruct (setNextModel_started src f w) as (Hproxy & Hnext & Hpend)
    end.
    rewrite Hproxy. done.
  - intros names. split; [|split; [|split]].
    + intros Hav. unfold set_selectDistinctColumns. by rewrite Hav.
    + intros Hav H. unfold set_selectDistinctColumns, selectDistinctColumns. rewrite Hav.
      cbn [negb]. destruct H as [-> | [-> ->]]; [done|]. cbn. by rewrite orb_true_r.
    + apply Hsd.
    + intros Hav Href Heq Hne.
      destruct (Hsd names Hav Href (or_introl Hne)) as (w' & H1 & _ & H2 & H3 & _).
      exists w'. done.
  - intros c. unfold set_partitionConfig. split; [by intros ->|]. intros ->. cbn [negb].
    eexists. split; [reflexivity|].
    match goal with
    | |- context [setNextModel ?src (upd_proxy ?f w)] =>
        destruct (setNextModel_started src f w) as (Hproxy & Hnext & Hpend)
    end.
    rewrite Hproxy. done.
Qed.

Lemma equal_configuration_setters_witness :
  set_rollupConfig (Some ex_rollup) ex_pending_world = Ok ex_pending_world
  /\ set_selectDistinctColumns (MkArray 1 ["A"; "B"]) ex_distinct_world
     = Ok ex_distinct_world
  /\ (exists w', set_selectDistinctColumns (MkArray 2 ["A"]) ex_distinct_world = Ok w'
                 /\ modelPromise (proxy w') = Some (nextPromise ex_distinct_world)
                 /\ nextPromise w' = S (nextPromise ex_distinct_world))
  /\ (exists w', set_partitionConfig (Some ex_partition) ex_partition_world = Ok w'
                 /\ partition (proxy w') = Some ex_partition
                 /\ modelPromise (proxy w') = Some (nextPromise ex_partition_world)
                 /\ nextPromise w' = S (nextPromise ex_partition_world)
                 /\ pending w' (nextPromise ex_partition_world))
  /\ set_rollupConfig None ex_distinct_world = Throw "Rollup Rows are not available".
Proof.
  destruct (equal_configuration_setters ex_pending_world) as (Hr & _ & _).
  destruct (equal_configuration_setters ex_distinct_world) as (Hr' & Hs & _).
  destruct (equal_configuration_setters ex_partition_world) as (_ & _ & Hp).
  split; [apply (Hr (Some ex_rollup)); reflexivity|].
  split; [apply (Hs (MkArray 1 ["A"; "B"])); [reflexivity | left; reflexivity]|].
  split; [apply (Hs (MkArray 2 ["A"])); [reflexivity | reflexivity | reflexivity | discriminate]|].
  split; [apply (Hp (Some ex_partition)); reflexivity|].
  apply (Hr' None). reflexivity.
Defined.

(** ** The invariant of the promise store *)

Lemma cancel_store_lookup (pid pid' : PromiseId) (ps : gmap PromiseId CancelablePromise) :
  cancel_store pid ps !! pid'
  = if decide (pid = pid') then mark_canceled <$> ps !! pid' else ps !! pid'.
Proof.
  unfold cancel_store. destruct (decide (pid = pid')) as [->|Hne].
  - destruct (ps !! pid') eqn:H; simpl; [by rewrite lookup_insert_eq | by rewrite H].
  - destruct (ps !! pid) eqn:H; [by rewrite lookup_insert_ne | done].
Qed.

Lemma superseded_store_lookup (w : World) (pid : PromiseId) :
  superseded_store w !! pid
  = if decide (modelPromise (proxy w) = Some pid)
    then mark_canceled <$> promises w !! pid else promises w !! pid.
Proof.
  unfold superseded_store. destruct (modelPromise (proxy w)) as [q|].
  - rewrite cancel_store_lookup.
    destruct (decide (q = pid)), (decide (Some q = Some pid)); congruence.
  - by destruct (decide _).
Qed.

Lemma Inv_constructor (t : Table) : Inv (constructor t).
Proof.
  split; unfold constructor; cbn [promises proxy modelPromise nextPromise].
  - intros pid p H. by rewrite lookup_empty in H.
  - intros pid (p & H & _). cbn [promises] in H. by rewrite lookup_empty in H.
  - done.
Qed.

Lemma Inv_setNextModel (src : Source) (f : Proxy -> Proxy) (w : World) :
  (forall p, modelPromise (f p) = modelPromise p) ->
  Inv w -> Inv (setNextModel src (upd_proxy f w)).
Proof.
  intros Hf [Ha Hp Hs]. rewrite setNextModel_eq.
  split; cbn [promises proxy modelPromise nextPromise set_modelPromise upd_proxy].
  - intros pid p. rewrite lookup_insert.
    destruct (decide _) as [<-|Hne]; [lia|].
    change (superseded_store (upd_proxy f w) !! pid = Some p -> pid < S (nextPromise w)).
    rewrite superseded_store_lookup. cbn [promises proxy upd_proxy].
    intros Hl.
    assert (is_Some (promises w !! pid)) as [p' Hp'].
    { case_decide; [|by eexists]. destruct (promises w !! pid); [by eexists|done]. }
    apply Ha in Hp'. lia.
  - intros pid (p & Hl & Hc & Hst). cbn [promises upd_proxy] in Hl.
    rewrite lookup_insert in Hl.
    destruct (decide _) as [<-|Hne]; [done|]. exfalso.
    change (superseded_store (upd_proxy f w) !! pid = Some p) in Hl.
    rewrite superseded_store_lookup in Hl. cbn [promises proxy upd_proxy] in Hl.
    rewrite Hf in Hl.
    destruct (decide _) as [Hslot|Hslot].
    + destruct (promises w !! pid); simpl in Hl; [|done].
      injection Hl as <-. done.
    + apply Hslot, Hp. exists p. done.
  - intros pid [= <-]. done.
Qed.

Lemma Inv_frame (w w' : World) :
  promises w' = promises w -> nextPromise w' = nextPromise w ->
  modelPromise (proxy w') = modelPromise (proxy w) ->
  Inv w -> Inv w'.
Proof.
  intros Hps Hn Hm [Ha Hp Hs]. split.
  - rewrite Hps, Hn. apply Ha.
  - rewrite Hm. intros pid (p & Hl & H). apply Hp. exists p. by rewrite <- Hps.
  - rewrite Hm, Hn. apply Hs.
Qed.

Lemma Inv_update (w w' : World) (pid : PromiseId) (p' : CancelablePromise) :
  promises w' = <[pid := p']> (promises w) -> nextPromise w' = nextPromise w ->
  is_Some (promises w !! pid) ->
  hasCanceled p' = true \/ settled p' = true ->
  modelPromise (proxy w') = modelPromise (proxy w)
  \/ (modelPromise (proxy w') = None /\ pending w pid) ->
  Inv w -> Inv w'.
Proof.
  intros Hps Hn [p0 Hp0] Hdone Hm [Ha Hp Hs]. split.
  - rewrite Hps, Hn. intros q p. rewrite lookup_insert.
    case_decide; [subst; intros _; by eapply Ha | apply Ha].
  - intros q (p & Hl & Hc & Hst). rewrite Hps, lookup_insert in Hl.
    case_decide; [destruct Hdone; congruence|].
    assert (Hq : pending w q) by (exists p; done).
    destruct Hm as [-> | [_ Hpid]]; [by apply Hp|].
    apply Hp in Hq, Hpid. congruence.
  - rewrite Hn. destruct Hm as [-> | [-> _]]; [apply Hs | done].
Qed.

Lemma Inv_step (w : World) (a : Action) : Inv w -> Inv (step w a).
Proof.
  intros HI. destruct a as [c|c|names|top bottom cols| | | |pid t|pid e]; cbn [step].
  - destruct (set_rollupConfig_cases c w) as [->|[->|[src ->]]]; cbn [state_of]; try done.
    by apply Inv_setNextModel.
  - destruct (set_partitionConfig_cases c w) as [->|[src ->]]; cbn [state_of]; try done.
    by apply Inv_setNextModel.
  - destruct (set_selectDistinctColumns_cases names w) as [->|[->|[src ->]]];
      cbn [state_of]; try done.
    by apply Inv_setNextModel.
  - by apply (Inv_frame w).
  - apply (Inv_frame w); try done; unfold addEventListener, startListening;
      destruct (bool_decide _); by rewrite ?addListeners_eq.
  - apply (Inv_frame w); try done; unfold removeEventListener, stopListening;
      destruct (listenerCount (proxy w)) as [|n]; try done;
      destruct (bool_decide _); by rewrite ?removeListeners_eq.
  - unfold close.
    destruct (negb (same_object (model (proxy w)) (originalModel (proxy w))));
      (destruct (modelPromise (proxy w)) as [q|] eqn:Hq;
       [|by apply (Inv_frame w)]);
      rewrite cancelPromise_eq; cbn [promises proxy emit];
      unfold cancel_store; (destruct (promises w !! q) as [p|] eqn:Hl;
       [|by apply (Inv_frame w)]);
      (eapply (Inv_update w _ q (mark_canceled p)); cbn; eauto).
  - unfold complete.
    destruct (promises w !! pid) as [p|] eqn:Hl; [|done].
    destruct (settled p) eqn:Hst; [done|].
    assert (Hsome : is_Some (promises w !! pid)) by (by eexists).
    unfold fulfil. destruct (underlying p) as [m0|r] eqn:Hu;
      cbn [promises bump_nextModel]; rewrite Hl, Hst;
      (destruct (hasCanceled p) eqn:Hc;
       [ eapply (Inv_update w _ pid); cbn; eauto
       | unfold onNextModel; rewrite setModel_eq;
         eapply (Inv_update w _ pid); cbn; eauto;
         right; split; [done | by exists p] ]).
  - unfold fail.
    destruct (promises w !! pid) as [p|] eqn:Hl; [|done].
    assert (Hsome : is_Some (promises w !! pid)) by (by eexists).
    destruct (underlying p) as [m0|r] eqn:Hu; [done|].
    unfold reject. rewrite Hl.
    destruct (settled p) eqn:Hst; [done|].
    destruct (hasCanceled p) eqn:Hc.
    + eapply (Inv_update w _ pid); cbn; eauto.
    + unfold onNextModelFailed. destruct (isCanceled e).
      * eapply (Inv_update w _ pid); cbn; eauto.
      * eapply (Inv_update w _ pid); cbn; eauto.
        right; split; [done | by exists p].
Qed.

Lemma Inv_run (t : Table) (tr : list Action) : Inv (run (constructor t) tr).
Proof.
  induction tr as [|a tr IH] using rev_ind; [apply Inv_constructor|].
  rewrite run_snoc. by apply Inv_step.
Qed.

(** ** Completions and the proxy *)

Lemma same_origin_refl (w : World) : same_origin w w.
Proof. intros q p H. eauto. Qed.

Lemma same_origin_trans (w1 w2 w3 : World) :
  same_origin w1 w2 -> same_origin w2 w3 -> same_origin w1 w3.
Proof.
  intros H12 H23 q p3 H3.
  destruct (H23 q p3 H3) as (p2 & H2 & Hu2 & Hc2).
  destruct (H12 q p2 H2) as (p1 & H1 & Hu1 & Hc1).
  exists p1. split; [done|]. split; congruence.
Qed.

Lemma same_origin_update (w w' : World) (pid : PromiseId) (p p' : CancelablePromise) :
  promises w !! pid = Some p ->
  promises w' = <[pid := p']> (promises w) ->
  underlying p = underlying p' -> hasCanceled p = hasCanceled p' ->
  same_origin w w'.
Proof.
  intros Hl Hps Hu Hc q p2. rewrite Hps, lookup_insert.
  case_decide; [|eauto]. subst q. intros [= <-]. eauto.
Qed.

(** A completion that finds its wrapper canceled, settled or missing leaves
    the proxy alone and dispatches nothing. *)
Lemma complete_cases (pid : PromiseId) (t : Table) (w : World) :
  (proxy (complete pid t w) = proxy w
   /\ List.filter is_dispatch (new_calls w (complete pid t w)) = [])
  \/ pending w pid.
Proof.
  unfold complete. destruct (promises w !! pid) as [p|] eqn:Hl.
  - destruct (settled p) eqn:Hst.
    + left. split; [done|]. by rewrite (new_calls_same w w); [reflexivity|].
    + destruct (hasCanceled p) eqn:Hc; [left | right; by exists p].
      unfold fulfil. destruct (underlying p); cbn [promises bump_nextModel];
        rewrite Hl, Hst, Hc; unfold closeModel; (split; [done|]);
        (erewrite new_calls_cons; [|cbn; reflexivity]; reflexivity).
  - left. split; [done|]. by rewrite (new_calls_same w w); [reflexivity|].
Qed.

Lemma complete_frame (pid : PromiseId) (t : Table) (w : World) :
  nextPromise (complete pid t w) = nextPromise w /\ same_origin w (complete pid t w).
Proof.
  unfold complete. destruct (promises w !! pid) as [p|] eqn:Hl;
    [|split; [done | apply same_origin_refl]].
  destruct (settled p) eqn:Hst; [split; [done | apply same_origin_refl]|].
  unfold fulfil. destruct (underlying p) eqn:Hu; cbn [promises bump_nextModel];
    rewrite Hl, Hst; destruct (hasCanceled p) eqn:Hc;
    unfold onNextModel; rewrite ?setModel_eq; (split; [done|]);
    eapply (same_origin_update _ _ pid p); cbn; eauto.
Qed.

Lemma fail_frame (pid : PromiseId) (e : Err) (w : World) :
  model (proxy (fail pid e w)) = model (proxy w)
  /\ nextPromise (fail pid e w) = nextPromise w
  /\ same_origin w (fail pid e w).
Proof.
  unfold fail. destruct (promises w !! pid) as [p|] eqn:Hl;
    [|split; [done | split; [done | apply same_origin_refl]]].
  destruct (underlying p) eqn:Hu;
    [split; [done | split; [done | apply same_origin_refl]]|].
  unfold reject. rewrite Hl.
  destruct (settled p) eqn:Hst;
    [split; [done | split; [done | apply same_origin_refl]]|].
  unfold onNextModelFailed.
  destruct (hasCanceled p) eqn:Hc; [|destruct (isCanceled e)];
    (split; [done|]); (split; [done|]);
    eapply (same_origin_update _ _ pid p); cbn; eauto.
Qed.

(** Apart from the completion of a wrapper, no action replaces the active
    model. *)
Lemma model_step_other (w : World) (a : Action) :
  (forall pid t, a <> Fulfil pid t) -> model (proxy (step w a)) = model (proxy w).
Proof.
  intros Ha. step_cases w a; try reflexivity; by destruct (Ha pid t).
Qed.

(** ** Supersession *)

Lemma classic_fulfil (a : Action) :
  (exists pid t, a = Fulfil pid t) \/ (forall pid t, a <> Fulfil pid t).
Proof. destruct a; try (right; intros; discriminate). left. eauto. Qed.

Lemma Inv_setNextModel_plain (src : Source) (w : World) :
  Inv w -> Inv (setNextModel src w).
Proof.
  intros H. replace w with (upd_proxy (fun p => p) w) by (by destruct w).
  by apply Inv_setNextModel.
Qed.

Lemma pending_unique (w : World) (p1 p2 : PromiseId) :
  Inv w -> pending w p1 -> pending w p2 -> p1 = p2.
Proof.
  intros HI H1 H2. apply (inv_pending w HI) in H1, H2. congruence.
Qed.

Lemma completions_run (w : World) (tr2 : list Action) :
  Inv w -> forallb is_completion tr2 = true ->
  Inv (run w tr2)
  /\ nextPromise (run w tr2) = nextPromise w
  /\ same_origin w (run w tr2)
  /\ (model (proxy (run w tr2)) = model (proxy w)
      \/ exists p t n, promises w !! (nextPromise w - 1) = Some p
           /\ hasCanceled p = false
           /\ In (Fulfil (nextPromise w - 1) t) tr2
           /\ model (proxy (run w tr2)) = result_of (underlying p) n t).
Proof.
  intros HI. induction tr2 as [|a tr2 IH] using rev_ind; intros Hall.
  - split; [done|]. split; [done|]. split; [apply same_origin_refl | by left].
  - rewrite forallb_app in Hall. apply andb_prop in Hall as [Hall Ha].
    destruct (IH Hall) as (HI2 & Hn & Ho & Hm). clear IH.
    rewrite run_snoc. set (w2 := run w tr2) in *.
    split; [by apply Inv_step|].
    destruct a as [c|c|names|top bottom cols| | | |pid t|pid e]; try discriminate Ha;
      cbn [step].
    + destruct (complete_frame pid t w2) as [Hn' Ho'].
      split; [congruence|]. split; [by eapply same_origin_trans|].
      destruct (complete_cases pid t w2) as [[Hproxy _]|Hpend].
      * rewrite Hproxy. destruct Hm as [Hm|(p & t' & n & H1 & H2 & H3 & H4)]; [by left|].
        right. exists p, t', n. repeat split; try done. apply in_or_app. by left.
      * right. destruct Hpend as (p' & Hl' & Hc' & Hs').
        destruct (Ho pid p' Hl') as (p & Hl & Hu & Hc).
        assert (Hslot : modelPromise (proxy w2) = Some pid)
          by (apply (inv_pending w2 HI2); by exists p').
        apply (inv_slot w2 HI2) in Hslot.
        assert (Hpid : pid = nextPromise w - 1) by lia. subst pid.
        exists p, t, (nextModel w2).
        split; [done|]. split; [congruence|].
        split; [apply in_or_app; right; by left|].
        destruct (complete_pending _ t w2 p' Hl' Hc' Hs') as [_ ->].
        cbn. unfold delivered. by rewrite Hu.
    + destruct (fail_frame pid e w2) as (Hm' & Hn' & Ho').
      split; [congruence|]. split; [by eapply same_origin_trans|].
      rewrite Hm'. destruct Hm as [Hm|(p & t' & n & H1 & H2 & H3 & H4)]; [by left|].
      right. exists p, t', n. repeat split; try done. apply in_or_app. by left.
Qed.

(** C1: along every trace of actions on a proxy, at most one transition is
    pending, and it is the one in the [modelPromise] slot, which is the one
    issued last; [setNextModel] leaves the previously pending transition
    canceled and the new one pending in the slot; the completion of any
    transition but the last issued one leaves the proxy untouched and
    dispatches nothing, so the active model only ever changes by the
    completion of the pending, last issued transition; and after any
    completions and failures, in whatever order, the active model is the
    one before them or the result of the last issued transition. *)
Theorem supersession (t0 : Table) (tr : list Action) :
  let w := run (constructor t0) tr in
  (forall p1 p2, pending w p1 -> pending w p2 -> p1 = p2)
  /\ (forall pid, pending w pid ->
        modelPromise (proxy w) = Some pid /\ S pid = nextPromise w)
  /\ (forall src,
        let w' := setNextModel src w in
        modelPromise (proxy w') = Some (nextPromise w)
        /\ pending w' (nextPromise w)
        /\ (forall pid, pending w' pid -> pid = nextPromise w)
        /\ (forall pid, pending w pid ->
              exists p', promises w' !! pid = Some p' /\ hasCanceled p' = true))
  /\ (forall pid t, S pid <> nextPromise w ->
        proxy (complete pid t w) = proxy w
        /\ List.filter is_dispatch (new_calls w (complete pid t w)) = [])
  /\ (forall a, model (proxy (step w a)) <> model (proxy w) ->
        exists t, a = Fulfil (nextPromise w - 1) t /\ pending w (nextPromise w - 1))
  /\ (forall pid p t,
        promises w !! pid = Some p -> hasCanceled p = false -> settled p = false ->
        model (proxy (complete pid t w)) = delivered p w t)
  /\ (forall tr2, forallb is_completion tr2 = true ->
        model (proxy (run w tr2)) = model (proxy w)
        \/ exists p t n, promises w !! (nextPromise w - 1) = Some p
             /\ hasCanceled p = false
             /\ In (Fulfil (nextPromise w - 1) t) tr2
             /\ model (proxy (run w tr2)) = result_of (underlying p) n t).
Proof.
  intros w. assert (HI : Inv w) by apply Inv_run.
  assert (Hlast : forall pid, pending w pid ->
            modelPromise (proxy w) = Some pid /\ S pid = nextPromise w).
  { intros pid Hp. apply (inv_pending w HI) in Hp. split; [done|].
    by apply (inv_slot w HI). }
  split; [intros p1 p2; by apply pending_unique|].
  split; [done|].
  split.
  { intros src w'.
    assert (HI' : Inv w') by (by apply Inv_setNextModel_plain).
    assert (Hslot : modelPromise (proxy w') = Some (nextPromise w))
      by (unfold w'; by rewrite setNextModel_eq).
    split; [done|]. split.
    - exists (MkPromise src false false None). unfold w'. rewrite setNextModel_eq.
      cbn [promises]. by rewrite lookup_insert_eq.
    - split.
      + intros pid Hp. apply (inv_pending w' HI') in Hp. congruence.
      + intros pid Hp. destruct (Hlast pid Hp) as [Hs Hn].
        destruct Hp as (p & Hl & _). exists (mark_canceled p).
        unfold w'. rewrite setNextModel_eq. cbn [promises].
        rewrite lookup_insert_ne by lia.
        rewrite superseded_store_lookup, decide_True by done.
        by rewrite Hl. }
  split.
  { intros pid t Hne. destruct (complete_cases pid t w) as [H|Hp]; [done|].
    apply Hlast in Hp. lia. }
  split.
  { intros a Hch.
    destruct (classic_fulfil a) as [(pid & t & ->)|Hother].
    - cbn [step] in Hch. destruct (complete_cases pid t w) as [[Hpr _]|Hp].
      + by rewrite Hpr in Hch.
      + destruct (Hlast pid Hp) as [_ Hn].
        replace (nextPromise w - 1) with pid by lia. eauto.
    - by rewrite model_step_other in Hch. }
  split.
  { intros pid p t Hl Hc Hs.
    destruct (complete_pending pid t w p Hl Hc Hs) as [_ ->]. done. }
  intros tr2 Hall. by apply completions_run.
Qed.

Lemma supersession_witness :
  let w := run (constructor ex_flat)
               [SetRollupConfig (Some ex_rollup); SetRollupConfig (Some ex_rollup')] in
  proxy (complete 0 ex_tree w) = proxy w
  /\ model (proxy (complete 1 ex_tree w)) = makeModel 1 ex_tree.
Proof.
  intros w.
  destruct (supersession ex_flat
              [SetRollupConfig (Some ex_rollup); SetRollupConfig (Some ex_rollup')])
    as (_ & _ & _ & Hstale & _ & Hlast & _).
  split.
  - apply (Hstale 0 ex_tree). vm_compute. lia.
  - apply (Hlast 1 (MkPromise (Derived (Rollup ex_rollup')) false false None) ex_tree);
      vm_compute; reflexivity.
Defined.

(** ** Event relay *)

(** Case analysis on every [bool_decide] of the goal. *)
Ltac split_decide :=
  repeat match goal with
         | |- context [@bool_decide ?P ?d] => destruct (@bool_decide_reflect P d)
         end.

Ltac decide_contra :=
  repeat match goal with H : _ /\ _ |- _ => destruct H end;
  subst; intuition (auto; congruence).

Lemma subscribed_adds (m : ModelId) (ks : list EventName) (cs : list Call)
  (m' : ModelId) (e : EventName) :
  subscribed (rev (map (ModelAddEventListener m) ks) ++ cs) m' e
  = if bool_decide (m' = m /\ e ∈ ks) then true else subscribed cs m' e.
Proof.
  revert cs. induction ks as [|k ks IH]; intros cs.
  - simpl. rewrite bool_decide_eq_false_2; [done|]. intros [_ H]. by apply not_elem_of_nil in H.
  - simpl. rewrite <- app_assoc. rewrite IH. simpl.
    split_decide; try done; exfalso; rewrite ?elem_of_cons in *; decide_contra.
Qed.

Lemma subscribed_removes (m : ModelId) (ks : list EventName) (cs : list Call)
  (m' : ModelId) (e : EventName) :
  subscribed (rev (map (ModelRemoveEventListener m) ks) ++ cs) m' e
  = if bool_decide (m' = m /\ e ∈ ks) then false else subscribed cs m' e.
Proof.
  revert cs. induction ks as [|k ks IH]; intros cs.
  - simpl. rewrite bool_decide_eq_false_2; [done|]. intros [_ H]. by apply not_elem_of_nil in H.
  - simpl. rewrite <- app_assoc. rewrite IH. simpl.
    split_decide; try done; exfalso; rewrite ?elem_of_cons in *; decide_contra.
Qed.

Lemma subscribed_setModel_log (m : IrisGridModel) (w : World) (cs : list Call)
  (m' : ModelId) (e : EventName) :
  subscribed (setModel_log m w ++ cs) m' e
  = if bool_decide (0 < listenerCount (proxy w))
       && bool_decide (m' = mid m /\ e ∈ EVENT_keys)
    then true else subscribed cs m' e.
Proof.
  unfold setModel_log. rewrite <- !app_assoc.
  assert (Hl : forall l, 
     subscribed ((if bool_decide (0 < listenerCount (proxy w))
      then rev (map (ModelAddEventListener (mid m)) EVENT_keys) else []) ++ l) m' e 
     = if bool_decide (0 < listenerCount (proxy w))
       && bool_decide (m' = mid m /\ e ∈ EVENT_keys)
    then true else subscribed l m' e).
  { intros l. destruct (bool_decide (0 < _)); [apply subscribed_adds | done]. }
  destruct (isIrisGridTableModelTemplate m), (negb (same_ref _ _)),
    (negb (same_object _ _)); try destruct (currentViewport (proxy w));
    cbn [app subscribed]; rewrite Hl; reflexivity.
Qed.

Lemma subscribed_setNextModel_log (w : World) (cs : list Call)
  (m' : ModelId) (e : EventName) :
  subscribed (setNextModel_log w ++ cs) m' e
  = if bool_decide (0 < listenerCount (proxy w))
       && bool_decide (m' = mid (model (proxy w)) /\ e ∈ EVENT_keys)
    then false else subscribed cs m' e.
Proof.
  unfold setNextModel_log. rewrite <- !app_assoc.
  assert (Hc : subscribed (match modelPromise (proxy w) with
     | Some pid => cancel_log pid w
     | None => []
     end ++ cs) m' e = subscribed cs m' e).
  { destruct (modelPromise (proxy w)) as [pid|]; [|done].
    unfold cancel_log. destruct (promises w !! pid) as [p|]; [|done].
    destruct (hasCanceled p), (settled p), (resolved p); done. }
  destruct (bool_decide (0 < _)); cbn [andb app]; [by rewrite subscribed_removes, Hc | done].
Qed.

Lemma classic_pending (w : World) (pid : PromiseId) : pending w pid \/ ~ pending w pid.
Proof.
  unfold pending. destruct (promises w !! pid) as [p|]; [|right; by intros (? & ? & _)].
  destruct (hasCanceled p) eqn:Hc; [right; intros (? & [= <-] & ? & _); congruence|].
  destruct (settled p) eqn:Hs; [right; intros (? & [= <-] & _ & ?); congruence|].
  left. by exists p.
Qed.

Lemma relaying_setNextModel (src : Source) (f : Proxy -> Proxy) (w : World) :
  (forall p, model (f p) = model p) ->
  (forall p, listenerCount (f p) = listenerCount p) ->
  relaying w -> relaying (setNextModel src (upd_proxy f w)).
Proof.
  intros Hm Hn [Hpos Hsub]. rewrite setNextModel_eq. split.
  - cbn. by rewrite Hn.
  - intros m e. cbn [calls proxy modelPromise set_modelPromise].
    rewrite subscribed_setNextModel_log. cbn [proxy upd_proxy calls].
    rewrite Hm, Hn, (bool_decide_eq_true_2 _ Hpos). cbn [andb].
    rewrite (bool_decide_eq_false_2 (Some _ = None /\ _)) by (by intros [? _]).
    case_bool_decide as Hme; [done|].
    rewrite Hsub. apply bool_decide_eq_false_2. intros (_ & H1 & H2). by apply Hme.
Qed.

Lemma complete_stale (pid : PromiseId) (t : Table) (w : World) :
  ~ pending w pid ->
  proxy (complete pid t w) = proxy w
  /\ forall m e, subscribed (calls (complete pid t w)) m e = subscribed (calls w) m e.
Proof.
  intros Hnp. unfold complete. destruct (promises w !! pid) as [p|] eqn:Hl; [|done].
  destruct (settled p) eqn:Hst; [done|].
  destruct (hasCanceled p) eqn:Hc; [|destruct Hnp; by exists p].
  unfold fulfil. destruct (underlying p); cbn [promises bump_nextModel];
    rewrite Hl, Hst, Hc; done.
Qed.

Lemma fail_stale (pid : PromiseId) (e : Err) (w : World) :
  ~ pending w pid ->
  proxy (fail pid e w) = proxy w /\ calls (fail pid e w) = calls w.
Proof.
  intros Hnp. unfold fail. destruct (promises w !! pid) as [p|] eqn:Hl; [|done].
  destruct (underlying p); [done|]. unfold reject. rewrite Hl.
  destruct (settled p) eqn:Hst; [done|].
  destruct (hasCanceled p) eqn:Hc; [done|]. destruct Hnp. by exists p.
Qed.

Lemma relaying_step (w : World) (a : Action) :
  Inv w -> relaying w -> relay_action w a = true -> relaying (step w a).
Proof.
  intros HI Hr Ha. destruct a as [c|c|names|top bottom cols| | | |pid t|pid e];
    try discriminate Ha; cbn [step].
  - destruct (set_rollupConfig_cases c w) as [->|[->|[src ->]]]; cbn [state_of]; try done.
    by apply relaying_setNextModel.
  - destruct (set_partitionConfig_cases c w) as [->|[src ->]]; cbn [state_of]; try done.
    by apply relaying_setNextModel.
  - destruct (set_selectDistinctColumns_cases names w) as [->|[->|[src ->]]];
      cbn [state_of]; try done.
    by apply relaying_setNextModel.
  - destruct Hr as [Hpos Hsub]. split; [done|]. intros m e. apply Hsub.
  - destruct Hr as [Hpos Hsub]. unfold addEventListener.
    rewrite bool_decide_eq_false_2 by lia. split; [cbn; lia|]. intros m e. apply Hsub.
  - destruct Hr as [Hpos Hsub].
    destruct (classic_pending w pid) as [Hp|Hnp].
    + pose proof (inv_pending w HI pid Hp) as Hslot.
      destruct Hp as (p & Hl & Hc & Hs).
      destruct (complete_pending pid t w p Hl Hc Hs) as [Hcalls Hproxy].
      split; [by rewrite Hproxy|]. intros m e.
      rewrite Hcalls, Hproxy, subscribed_setModel_log.
      rewrite (bool_decide_eq_true_2 _ Hpos). cbn [andb modelPromise model set_model].
      rewrite Hsub, Hslot.
      rewrite (bool_decide_eq_false_2 (Some _ = None /\ _)) by (by intros [? _]).
      split_decide; try done; exfalso; decide_contra.
    + destruct (complete_stale pid t w Hnp) as [Hproxy Hsame].
      split; [by rewrite Hproxy|]. intros m e. by rewrite Hsame, Hproxy.
  - cbn in Ha. apply negb_true_iff, bool_decide_eq_false in Ha.
    assert (Hnp : ~ pending w pid) by (intros Hp; by apply Ha, (inv_pending w HI)).
    destruct (fail_stale pid e w Hnp) as [Hproxy Hcalls].
    unfold relaying. by rewrite Hproxy, Hcalls.
Qed.

Lemma relaying_run (w : World) (tr : list Action) :
  Inv w -> relaying w -> relay_trace w tr = true -> relaying (run w tr).
Proof.
  revert w. induction tr as [|a tr IH]; intros w HI Hr Htr; [done|].
  cbn in Htr. apply andb_prop in Htr as [Ha Htr].
  cbn. apply IH; [by apply Inv_step | by apply relaying_step | done].
Qed.

Lemma relaying_ex_listening_world : relaying ex_listening_world.
Proof.
  split; [vm_compute; lia|]. intros m e.
  change (calls ex_listening_world)
    with (rev (map (ModelAddEventListener 0) EVENT_keys) ++ []).
  rewrite subscribed_adds.
  change (modelPromise (proxy ex_listening_world)) with (@None nat).
  change (mid (model (proxy ex_listening_world))) with 0.
  split_decide; try done; exfalso; decide_contra.
Qed.

Lemma relaying_first_listener (t0 : Table) :
  relaying (run (constructor t0) [AddEventListener]).
Proof.
  split; [change (0 < 1); lia|]. intros m e.
  change (calls (run (constructor t0) [AddEventListener]))
    with (foldl (fun w e => emit (ModelAddEventListener (mid (makeModel 0 t0)) e) w)
                (upd_proxy (set_listenerCount 1) (constructor t0)) EVENT_keys).(calls).
  rewrite emit_all_eq. cbn [calls upd_proxy constructor]. rewrite subscribed_adds.
  change (modelPromise (proxy (run (constructor t0) [AddEventListener]))) with (@None nat).
  change (model (proxy (run (constructor t0) [AddEventListener]))) with (makeModel 0 t0).
  split_decide; try done; exfalso; decide_contra.
Qed.

(** C7 as stated fails in both halves.  A proxy with one listener, right
    after a rollup was requested and before the new model arrives, is
    registered on no model at all, while transition 0 is pending and the
    only model there is, the original one, is still the active model.  And
    a proxy whose first listener was added while the rollup was pending is,
    once the swap has completed, registered for every event kind on the
    replaced model 0 and on the new active model 1 at once. *)
Lemma relay_gap_while_pending :
  (listenerCount (proxy ex_listening_pending_world) = 1
   /\ pending ex_listening_pending_world 0
   /\ mid (model (proxy ex_listening_pending_world)) = 0
   /\ (forall e, e ∈ EVENT_keys -> subscribed (calls ex_listening_world) 0 e = true)
   /\ (forall m e, subscribed (calls ex_listening_pending_world) m e = false))
  /\ (listenerCount (proxy ex_late_listener_world) = 1
      /\ modelPromise (proxy ex_late_listener_world) = None
      /\ mid (model (proxy ex_late_listener_world)) = 1
      /\ forallb (fun e => subscribed (calls ex_late_listener_world) 0 e
                           && subscribed (calls ex_late_listener_world) 1 e)
                 EVENT_keys = true).
Proof.
  split.
  - split; [reflexivity|]. split.
    { exists ex_pending_promise. split; [vm_compute; reflexivity | done]. }
    split; [reflexivity|]. split.
    + intros e He. destruct relaying_ex_listening_world as [_ ->].
      by apply bool_decide_eq_true_2.
    + intros m e.
      assert (Hr : relaying ex_listening_pending_world).
      { apply relaying_step; [apply Inv_run | apply relaying_ex_listening_world | done]. }
      destruct Hr as [_ ->]. by apply bool_decide_eq_false_2; intros [? _].
  - repeat split; vm_compute; reflexivity.
Qed.

(** C7, as the code has it.  A newly built proxy that is given its first
    listener has the handler registered on the active model, for every
    event kind, and on nothing else.  From any state in which the proxy has
    a listener and the handler is registered on the active model alone (for
    every event kind if no transition is in the slot, for none if one is),
    and as long as no listener is removed, the proxy is not closed and the
    transition in the slot does not fail: the handler is registered on no
    model while a transition is in the slot (it is removed from the active
    model when the change is issued), and once the swap has completed it is
    registered, for every event kind, on the new active model and on no
    other; it is never registered on two models. *)
Theorem relay_moves_with_swap (t0 : Table) (tr0 tr : list Action) :
  relaying (run (constructor t0) [AddEventListener])
  /\ (let w0 := run (constructor t0) tr0 in
      relaying w0 -> relay_trace w0 tr = true ->
      let w := run w0 tr in
      0 < listenerCount (proxy w)
      /\ (modelPromise (proxy w) <> None -> forall m e, subscribed (calls w) m e = false)
      /\ (modelPromise (proxy w) = None ->
          forall m e, subscribed (calls w) m e
                      = bool_decide (m = mid (model (proxy w)) /\ e ∈ EVENT_keys))
      /\ (forall m e, subscribed (calls w) m e = true -> m = mid (model (proxy w)))).
Proof.
  split; [apply relaying_first_listener|].
  intros w0 Hr Htr w.
  assert (Hw : relaying w) by (apply relaying_run; [apply Inv_run | done | done]).
  destruct Hw as [Hpos Hsub]. split; [done|]. split; [|split].
  - intros Hslot m e. rewrite Hsub. apply bool_decide_eq_false_2. by intros [? _].
  - intros Hslot m e. rewrite Hsub, Hslot.
    split_decide; try done; exfalso; decide_contra.
  - intros m e. rewrite Hsub. intros H. apply bool_decide_eq_true in H.
    by destruct H as (_ & ? & _).
Qed.

Lemma relay_moves_with_swap_witness :
  (forall m e,
     subscribed (calls (run (run (constructor ex_flat) [AddEventListener])
                            [SetRollupConfig (Some ex_rollup)])) m e
     = false)
  /\ (forall m e,
        subscribed (calls (run (run (constructor ex_flat) [AddEventListener])
                               [SetRollupConfig (Some ex_rollup); Fulfil 0 ex_tree])) m e
        = bool_decide (m = 1 /\ e ∈ EVENT_keys)).
Proof.
  destruct (relay_moves_with_swap ex_flat [AddEventListener]
              [SetRollupConfig (Some ex_rollup)]) as [Hfirst Hmove].
  destruct (relay_moves_with_swap ex_flat [AddEventListener]
              [SetRollupConfig (Some ex_rollup); Fulfil 0 ex_tree]) as [_ Hmove'].
  split.
  - apply (Hmove Hfirst); [vm_compute; reflexivity | vm_compute; discriminate].
  - apply (Hmove' Hfirst); vm_compute; reflexivity.
Defined.

(** ** Closing *)

(** What [close] does to a proxy with no transition in the slot: it closes
    the original model, and the active model when that is another object. *)
Lemma close_idle (w : World) :
  modelPromise (proxy w) = None ->
  calls (close w)
  = (if same_object (model (proxy w)) (originalModel (proxy w)) then []
     else [ModelClose (mid (model (proxy w)))])
    ++ ModelClose (mid (originalModel (proxy w))) :: calls w.
Proof.
  intros H. unfold close. rewrite H.
  by destruct (same_object (model (proxy w)) (originalModel (proxy w))).
Qed.

(** [close] cancels the pending transition. *)
Lemma close_cancels (w : World) (pid : PromiseId) :
  pending w pid -> modelPromise (proxy w) = Some pid ->
  exists p, promises (close w) !! pid = Some p /\ hasCanceled p = true.
Proof.
  intros (p & Hl & Hc & Hs) Hslot. exists (mark_canceled p). split; [|done].
  unfold close. rewrite Hslot.
  destruct (negb (same_object (model (proxy w)) (originalModel (proxy w))));
    rewrite cancelPromise_eq; cbn [promises emit]; unfold cancel_store;
    by rewrite Hl, lookup_insert_eq.
Qed.

(** C8 fails on the code: on [ex_close_trace] the original model (object 0)
    is closed twice, once by [close] and once more by the disposal callback
    of the canceled wrapper around [Promise.resolve(originalModel)]; on
    [ex_supersede_trace] the disposal callback closes the original model
    while the proxy is open and still holds it as [originalModel].  The
    model of the rollup (object 1) is closed once in both. *)
Theorem original_model_closed_twice :
  let w := run (constructor ex_flat) ex_close_trace in
  let w' := run (constructor ex_flat) ex_supersede_trace in
  mid (originalModel (proxy w)) = 0
  /\ close_count 0 (calls w) = 2
  /\ close_count 1 (calls w) = 1
  /\ calls w = [ModelClose 0; ModelClose 1; ModelClose 0;
                DispatchEvent TABLE_CHANGED (DTable ex_tree);
                DispatchEvent COLUMNS_CHANGED (DColumns (MkArray 8 [MkColumn "A"]))]
  /\ mid (originalModel (proxy w')) = 0
  /\ pending w' 2
  /\ close_count 0 (calls w') = 1.
Proof.
  cbn zeta.
  split; [vm_compute; reflexivity|].
  split; [vm_compute; reflexivity|].
  split; [vm_compute; reflexivity|].
  split; [vm_compute; reflexivity|].
  split; [vm_compute; reflexivity|].
  split; [|vm_compute; reflexivity].
  exists (MkPromise (Derived (Rollup ex_rollup')) false false None).
  split; [vm_compute; reflexivity | done].
Qed.

(** ** Stored configurations *)

(** A setter either leaves the world as it was (it threw, or returned
    early), or passed its availability check and started a transition. *)
Lemma set_rollupConfig_guarded (c : option RollupConfig) (w : World) :
  state_of w (set_rollupConfig c w) = w
  \/ (isRollupAvailable (proxy w) = true
      /\ exists src, set_rollupConfig c w
                     = Ok (setNextModel src (upd_proxy (set_rollup c) w))).
Proof.
  unfold set_rollupConfig.
  destruct (isRollupAvailable (proxy w)); cbn [negb]; [|by left].
  destruct (deepEqual c (rollup (proxy w))); [by left|].
  right. split; [done|]. eauto.
Qed.

Lemma set_selectDistinctColumns_guarded (names : JsArray ColumnName) (w : World) :
  state_of w (set_selectDistinctColumns names w) = w
  \/ (isSelectDistinctAvailable (proxy w) = true
      /\ exists src, set_selectDistinctColumns names w
                     = Ok (setNextModel src (upd_proxy (set_selectDistinct names) w))).
Proof.
  unfold set_selectDistinctColumns.
  destruct (isSelectDistinctAvailable (proxy w)); cbn [negb]; [|by left].
  destruct (_ || _); [by left|].
  right. split; [done|]. eauto.
Qed.

Lemma config_frame (w : World) (a : Action) :
  (forall c, a <> SetRollupConfig c) ->
  (forall names, a <> SetSelectDistinctColumns names) ->
  rollup (proxy (step w a)) = rollup (proxy w)
  /\ selectDistinct (proxy (step w a)) = selectDistinct (proxy w).
Proof.
  intros H1 H2. step_cases w a; try done;
    first [by destruct (H1 c) | by destruct (H2 names)].
Qed.

Lemma config_step (w : World) (a : Action) :
  (rollup (proxy (step w a)) = rollup (proxy w)
   /\ selectDistinct (proxy (step w a)) = selectDistinct (proxy w))
  \/ (isRollupAvailable (proxy w) = true
      /\ selectDistinct (proxy (step w a)) = selectDistinct (proxy w))
  \/ (isSelectDistinctAvailable (proxy w) = true
      /\ rollup (proxy (step w a)) = rollup (proxy w)).
Proof.
  destruct a as [c| |names| | | | | | ];
    try (left; by apply config_frame).
  - cbn [step]. destruct (set_rollupConfig_guarded c w) as [->|[Hav [src ->]]];
      [by left|]. right; left. split; [done|]. cbn [state_of]. by rewrite setNextModel_eq.
  - cbn [step]. destruct (set_selectDistinctColumns_guarded names w) as [->|[Hav [src ->]]];
      [by left|]. right; right. split; [done|]. cbn [state_of]. by rewrite setNextModel_eq.
Qed.

Lemma rollup_or_selectDistinct_empty (t : Table) (tr : list Action) :
  let p := proxy (run (constructor t) tr) in
  rollup p = None \/ items (selectDistinct p) = [].
Proof.
  induction tr as [|a tr IH] using rev_ind; [by left|].
  rewrite run_snoc. cbn zeta in *. set (w := run (constructor t) tr) in *.
  destruct (config_step w a) as [[-> ->]|[[Hav ->]|[Hav ->]]]; [done| |].
  - right. unfold isRollupAvailable in Hav. apply andb_prop in Hav as [_ Hav].
    apply bool_decide_eq_true in Hav. by apply nil_length_inv.
  - left. unfold isSelectDistinctAvailable in Hav. apply andb_prop in Hav as [_ Hav].
    by apply bool_decide_eq_true in Hav.
Qed.

(** X1: in every state a proxy can reach, a rollup configuration and a
    non-empty select-distinct column list are never stored together: each
    setter only records its value after its availability check, which the
    other configuration makes fail. *)
Theorem stored_configurations_exclusive (t : Table) (tr : list Action) :
  let p := proxy (run (constructor t) tr) in
  rollup p = None \/ items (selectDistinct p) = [].
Proof. apply rollup_or_selectDistinct_empty. Qed.

(** X2: a configuration setter called while its configuration is not
    available throws before recording anything: the select-distinct setter
    while a rollup configuration is stored, the rollup setter while
    select-distinct columns are stored, the partition setter while the
    original model does not require partitions (the partition getter then
    answers null); [partitionKeysTable], [partitionMergedTable] and
    [partitionTable] throw, and [partitionColumns] is empty, when the
    original model provides no partitions. *)
Theorem configuration_rejected (w : World) :
  (rollup (proxy w) <> None ->
   forall names,
     set_selectDistinctColumns names w = Throw "Select distinct is not available")
  /\ (0 < length (items (selectDistinct (proxy w))) ->
      forall c, set_rollupConfig c w = Throw "Rollup Rows are not available")
  /\ (isPartitionRequired (proxy w) = false ->
      (forall c, set_partitionConfig c w = Throw "Partitions are not available")
      /\ partitionConfig (proxy w) = None)
  /\ (isPartitionedGridModelProvider (originalModel (proxy w)) = None ->
      partitionKeysTable (proxy w) = Throw "Partitions are not available"
      /\ partitionMergedTable (proxy w) = Throw "Partitions are not available"
      /\ (forall parts,
            partitionTable parts (proxy w) = Throw "Partitions are not available")
      /\ partitionColumns (proxy w) = []).
Proof.
  split; [|split; [|split]].
  - intros H names. unfold set_selectDistinctColumns.
    by rewrite selectDistinct_unavailable_with_rollup.
  - intros H c. unfold set_rollupConfig.
    by rewrite rollup_unavailable_with_selectDistinct.
  - intros H. split.
    + intros c. unfold set_partitionConfig. by rewrite H.
    + unfold partitionConfig. unfold isPartitionRequired in H.
      destruct (isPartitionedGridModelProvider (originalModel (proxy w))); [|done].
      by rewrite H.
  - intros H. unfold partitionKeysTable, partitionMergedTable, partitionTable,
      partitionColumns. by rewrite H.
Qed.

Lemma configuration_rejected_witness :
  set_selectDistinctColumns (MkArray 1 ["A"]) ex_pending_world
  = Throw "Select distinct is not available"
  /\ set_rollupConfig (Some ex_rollup) ex_distinct_world
     = Throw "Rollup Rows are not available"
  /\ set_partitionConfig (Some ex_partition) ex_world
     = Throw "Partitions are not available"
  /\ partitionKeysTable (proxy ex_world) = Throw "Partitions are not available".
Proof.
  destruct (configuration_rejected ex_pending_world) as (H1 & _).
  destruct (configuration_rejected ex_distinct_world) as (_ & H2 & _).
  destruct (configuration_rejected ex_world) as (_ & _ & H3 & H4).
  split; [apply H1; discriminate|].
  split; [apply H2; vm_compute; lia|].
  split; [apply H3; reflexivity|].
  apply H4. reflexivity.
Defined.

(** X3: a setter that returns normally leaves its value readable at once,
    before the transition completes: the rollup getter answers a value
    deep-equal to (here: equal to) the one set, the partition getter the
    value set, and the select-distinct getter the array set, or else the
    stored array when it is the same object or both arrays are empty. *)
Theorem configuration_round_trip (w w' : World) :
  (forall c, set_rollupConfig c w = Ok w' -> rollupConfig (proxy w') = c)
  /\ (forall c, set_partitionConfig c w = Ok w' -> partitionConfig (proxy w') = c)
  /\ (forall names, set_selectDistinctColumns names w = Ok w' ->
        selectDistinctColumns (proxy w') = names
        \/ same_ref names (selectDistinctColumns (proxy w')) = true
        \/ (items names = [] /\ items (selectDistinctColumns (proxy w')) = [])).
Proof.
  split; [|split].
  - intros c. unfold set_rollupConfig, rollupConfig.
    destruct (negb (isRollupAvailable (proxy w))); [done|].
    destruct (deepEqual c (rollup (proxy w))) eqn:Heq.
    + intros [= <-]. symmetry. by apply bool_decide_eq_true in Heq.
    + intros [= <-]. by rewrite setNextModel_eq.
  - intros c. unfold set_partitionConfig.
    destruct (isPartitionRequired (proxy w)) eqn:Hreq; [|done]. cbn [negb].
    intros [= <-]. rewrite setNextModel_eq. unfold partitionConfig. cbn.
    unfold isPartitionRequired in Hreq.
    destruct (isPartitionedGridModelProvider (originalModel (proxy w))); [|done].
    by rewrite Hreq.
  - intros names. unfold set_selectDistinctColumns.
    destruct (negb (isSelectDistinctAvailable (proxy w))); [done|].
    destruct (same_ref names (selectDistinctColumns (proxy w))) eqn:Href.
    + intros [= <-]. right; left. done.
    + cbn [orb]. destruct (bool_decide (length (items names) = 0)) eqn:H1;
        [destruct (bool_decide (length (items (selectDistinctColumns (proxy w))) = 0)) eqn:H2|];
        cbn [andb].
      * intros [= <-]. right; right.
        apply bool_decide_eq_true in H1, H2. split; by apply nil_length_inv.
      * intros [= <-]. left. by rewrite setNextModel_eq.
      * intros [= <-]. left. by rewrite setNextModel_eq.
Qed.

Lemma configuration_round_trip_witness :
  rollupConfig (proxy ex_pending_world) = Some ex_rollup
  /\ partitionConfig
       (proxy (step (constructor ex_partitioned) (SetPartitionConfig (Some ex_partition))))
     = Some ex_partition.
Proof.
  split.
  - apply (configuration_round_trip ex_world ex_pending_world). reflexivity.
  - apply (configuration_round_trip (constructor ex_partitioned)
             (step (constructor ex_partitioned) (SetPartitionConfig (Some ex_partition)))).
    reflexivity.
Defined.

(** ** The life of the backing models *)

Lemma mid_makeModel (n : ModelId) (t : Table) : mid (makeModel n t) = n.
Proof. unfold makeModel. by destruct (isTreeTable t), (isPartitionedTable t). Qed.

Lemma source_makeModel (n : ModelId) (t : Table) : source (makeModel n t) = t.
Proof. unfold makeModel. by destruct (isTreeTable t), (isPartitionedTable t). Qed.

Lemma complete_pending_world (pid : PromiseId) (t : Table) (w : World) (p : CancelablePromise) :
  promises w !! pid = Some p -> hasCanceled p = false -> settled p = false ->
  complete pid t w
  = MkWorld (set_model (delivered p w t) (set_modelPromise None (proxy w)))
            (<[pid := MkPromise (underlying p) false true (Some (delivered p w t))]>
               (promises w))
            (nextPromise w) (nextModel_after (underlying p) (nextModel w))
            (setModel_log (delivered p w t) w ++ calls w).
Proof.
  intros Hp Hc Hs. unfold complete, delivered, result_of, nextModel_after.
  rewrite Hp, Hs.
  destruct (underlying p) as [m|r] eqn:Hu; unfold fulfil; cbn [promises bump_nextModel];
    rewrite Hp, Hs, Hc, Hu; unfold onNextModel; rewrite setModel_eq; reflexivity.
Qed.

Lemma complete_canceled_world (pid : PromiseId) (t : Table) (w : World) (p : CancelablePromise) :
  promises w !! pid = Some p -> hasCanceled p = true -> settled p = false ->
  complete pid t w
  = MkWorld (proxy w) (<[pid := MkPromise (underlying p) true true None]> (promises w))
            (nextPromise w) (nextModel_after (underlying p) (nextModel w))
            (ModelClose (mid (delivered p w t)) :: calls w).
Proof.
  intros Hp Hc Hs. unfold complete, delivered, result_of, nextModel_after.
  rewrite Hp, Hs.
  destruct (underlying p) as [m|r] eqn:Hu; unfold fulfil; cbn [promises bump_nextModel];
    rewrite Hp, Hs, Hc, Hu; reflexivity.
Qed.

Lemma complete_settled (pid : PromiseId) (t : Table) (w : World) :
  (forall p, promises w !! pid = Some p -> settled p = true) -> complete pid t w = w.
Proof.
  intros H. unfold complete. destruct (promises w !! pid) as [p|]; [|done].
  by rewrite (H p).
Qed.

Lemma close_count_app (n : ModelId) (l cs : list Call) :
  close_count n (l ++ cs) = close_count n l + close_count n cs.
Proof. unfold close_count. by rewrite List.filter_app, length_app. Qed.

Lemma close_count_listeners (n : ModelId) (g : EventName -> Call) (ks : list EventName) :
  (forall e, is_close_of n (g e) = false) -> close_count n (rev (map g ks)) = 0.
Proof. intros H. unfold close_count. by rewrite filter_listener_calls. Qed.

Lemma close_count_setModel_log (n : ModelId) (m : IrisGridModel) (w : World) :
  close_count n (setModel_log m w)
  = if negb (same_object (model (proxy w)) (originalModel (proxy w)))
       && bool_decide (mid (model (proxy w)) = n)
    then 1 else 0.
Proof.
  unfold setModel_log. rewrite !close_count_app.
  replace (close_count n
             (if bool_decide (0 < listenerCount (proxy w))
              then rev (map (ModelAddEventListener (mid m)) EVENT_keys) else []))
    with 0
    by (destruct (bool_decide (0 < _)); [by rewrite close_count_listeners | done]).
  destruct (isIrisGridTableModelTemplate m), (negb (same_ref _ _)),
    (negb (same_object _ _)); try destruct (currentViewport (proxy w));
    unfold close_count; cbn [List.filter is_close_of app andb];
    try destruct (bool_decide (mid (model (proxy w)) = n)); reflexivity.
Qed.

Lemma close_count_setNextModel_log (n : ModelId) (w : World) :
  (forall pid p, modelPromise (proxy w) = Some pid -> promises w !! pid = Some p ->
                 hasCanceled p = true \/ resolved p = None) ->
  close_count n (setNextModel_log w) = 0.
Proof.
  intros Hslot. unfold setNextModel_log. rewrite close_count_app.
  replace (close_count n
             (if bool_decide (0 < listenerCount (proxy w))
              then rev (map (ModelRemoveEventListener (mid (model (proxy w)))) EVENT_keys)
              else []))
    with 0
    by (destruct (bool_decide (0 < _)); [by rewrite close_count_listeners | done]).
  destruct (modelPromise (proxy w)) as [pid|]; [|done].
  unfold cancel_log. destruct (promises w !! pid) as [p|] eqn:Hl; [|done].
  destruct (Hslot pid p eq_refl Hl) as [-> | ->]; [done|].
  by destruct (hasCanceled p), (settled p).
Qed.

Lemma Life_mid (t0 : Table) (w : World) :
  Life t0 w ->
  mid (originalModel (proxy w)) = 0 /\ mid (model (proxy w)) < nextModel w.
Proof.
  intros [Ho Hn Ha _ _ _]. rewrite Ho, mid_makeModel. split; [done|].
  destruct Ha as [-> | (n & t & Hn' & ->)].
  - rewrite Ho, mid_makeModel. lia.
  - rewrite mid_makeModel. lia.
Qed.

(** A setter that starts a transition hands [setNextModel] the resolved
    original model or a derivation, after recording one configuration. *)
Lemma setter_step (w : World) (a : Action) :
  is_setter a = true ->
  step w a = w
  \/ exists src f,
       step w a = setNextModel src (upd_proxy f w)
       /\ (forall p, originalModel (f p) = originalModel p /\ model (f p) = model p
                     /\ modelPromise (f p) = modelPromise p
                     /\ listenerCount (f p) = listenerCount p)
       /\ (forall m, src = Immediate m -> m = originalModel (proxy w)).
Proof.
  destruct a as [c|c|names| | | | | | ]; try discriminate; intros _; cbn [step].
  - unfold set_rollupConfig.
    destruct (negb (isRollupAvailable (proxy w))); [by left|].
    destruct (deepEqual c (rollup (proxy w))); [by left|].
    right. eexists _, (set_rollup c). split; [reflexivity|]. split; [done|].
    intros m. cbn. destruct c; [destruct (isIrisGridTableModelTemplate _)|]; congruence.
  - unfold set_partitionConfig.
    destruct (negb (isPartitionRequired (proxy w))); [by left|].
    right. eexists _, (set_partition c). split; [reflexivity|]. split; [done|].
    intros m. cbn.
    destruct c as [c|]; [destruct (isPartitionedGridModelProvider _);
                         [destruct (mode c)|]|]; congruence.
  - unfold set_selectDistinctColumns.
    destruct (negb (isSelectDistinctAvailable (proxy w))); [by left|].
    destruct (_ || _); [by left|].
    right. eexists _, (set_selectDistinct names). split; [reflexivity|]. split; [done|].
    intros m. cbn. destruct (_ && _); congruence.
Qed.

Lemma Life_setNextModel (t0 : Table) (src : Source) (f : Proxy -> Proxy) (w : World) :
  (forall p, originalModel (f p) = originalModel p /\ model (f p) = model p
             /\ modelPromise (f p) = modelPromise p
             /\ listenerCount (f p) = listenerCount p) ->
  (forall m, src = Immediate m -> m = originalModel (proxy w)) ->
  Life t0 w -> Life t0 (setNextModel src (upd_proxy f w)).
Proof.
  intros Hf Hsrc [Ho Hn Ha Hi Hs Hc]. rewrite setNextModel_eq.
  destruct (Hf (proxy w)) as (Hf1 & Hf2 & Hf3 & Hf4).
  split; cbn [proxy promises nextModel calls upd_proxy set_modelPromise
              originalModel model modelPromise].
  - by rewrite Hf1.
  - done.
  - by rewrite Hf1, Hf2.
  - intros pid p m. rewrite lookup_insert. rewrite Hf1.
    destruct (decide _) as [<-|Hne]; [intros [= <-]; apply Hsrc|].
    rewrite superseded_store_lookup. cbn [promises proxy upd_proxy].
    destruct (decide _); [|apply Hi].
    destruct (promises w !! pid) as [p0|] eqn:Hl; [|done].
    cbn. intros [= <-] Hu. exact (Hi pid p0 m Hl Hu).
  - intros pid p [= <-]. rewrite lookup_insert_eq. intros [= <-]. by right.
  - intros n Hn1. rewrite close_count_app, close_count_setNextModel_log.
    + rewrite Hf2. by apply Hc.
    + cbn [proxy promises upd_proxy]. rewrite Hf3. apply Hs.
Qed.

Lemma Life_frame (t0 : Table) (w w' : World) :
  originalModel (proxy w') = originalModel (proxy w) ->
  model (proxy w') = model (proxy w) ->
  modelPromise (proxy w') = modelPromise (proxy w) ->
  promises w' = promises w -> nextModel w' = nextModel w ->
  (forall n, close_count n (calls w') = close_count n (calls w)) ->
  Life t0 w -> Life t0 w'.
Proof.
  intros H1 H2 H3 H4 H5 H6 [Ho Hn Ha Hi Hs Hc].
  split; rewrite ?H1, ?H2, ?H3, ?H4, ?H5; try done.
  intros n Hn1. rewrite H6. by apply Hc.
Qed.

Lemma close_count_cons (n m : ModelId) (cs : list Call) :
  close_count n (ModelClose m :: cs)
  = (if bool_decide (m = n) then 1 else 0) + close_count n cs.
Proof. unfold close_count. cbn. by destruct (bool_decide (m = n)). Qed.

Lemma Life_complete (t0 : Table) (pid : PromiseId) (t : Table) (w : World) :
  Life t0 w -> Life t0 (complete pid t w).
Proof.
  intros HL. destruct (Life_mid t0 w HL) as [Hmo Hma].
  destruct HL as [Ho Hn Ha Hi Hs Hc].
  destruct (promises w !! pid) as [p|] eqn:Hl;
    [|rewrite complete_settled; [done | by rewrite Hl]].
  destruct (settled p) eqn:Hst;
    [rewrite complete_settled; [done | rewrite Hl; by intros ? [= <-]]|].
  assert (Hmid : mid (delivered p w t)
                 = match underlying p with Immediate _ => 0 | Derived _ => nextModel w end).
  { unfold delivered, result_of. destruct (underlying p) as [m0|r] eqn:Hu.
    - by rewrite (Hi pid p m0 Hl Hu).
    - apply mid_makeModel. }
  destruct (hasCanceled p) eqn:Hcan.
  - rewrite (complete_canceled_world pid t w p Hl Hcan Hst).
    split; cbn [proxy promises nextModel calls]; try done.
    + unfold nextModel_after. destruct (underlying p); lia.
    + destruct Ha as [Ha | (n & t' & Hn' & Ha)]; [by left|].
      right. exists n, t'. split; [|done].
      unfold nextModel_after. destruct (underlying p); lia.
    + intros q p' m. rewrite lookup_insert.
      destruct (decide _) as [<-|Hne]; [|apply Hi].
      intros [= <-]. cbn. by apply (Hi pid).
    + intros q p' Hq. rewrite lookup_insert.
      destruct (decide _) as [<-|Hne]; [|by apply Hs].
      intros [= <-]. by left.
    + intros n Hn1. rewrite close_count_cons, (Hc n Hn1), Hmid.
      unfold nextModel_after. destruct (underlying p); split_decide; lia.
  - rewrite (complete_pending_world pid t w p Hl Hcan Hst).
    split; cbn [proxy promises nextModel calls set_model set_modelPromise
                originalModel model modelPromise]; try done.
    + unfold nextModel_after. destruct (underlying p); lia.
    + unfold delivered, result_of, nextModel_after.
      destruct (underlying p) as [m0|r] eqn:Hu.
      * left. by apply (Hi pid p).
      * right. exists (nextModel w), t. split; [lia|done].
    + intros q p' m. rewrite lookup_insert.
      destruct (decide _) as [<-|Hne]; [|apply Hi].
      intros [= <-]. cbn. by apply (Hi pid).
    + intros n Hn1.
      rewrite close_count_app, close_count_setModel_log, (Hc n Hn1), Hmid.
      unfold same_object. rewrite Hmo.
      unfold nextModel_after. destruct (underlying p); split_decide; cbn [negb andb]; lia.
Qed.

Lemma Life_fail (t0 : Table) (pid : PromiseId) (e : Err) (w : World) :
  Life t0 w -> Life t0 (fail pid e w).
Proof.
  intros [Ho Hn Ha Hi Hs Hc]. unfold fail.
  destruct (promises w !! pid) as [p|] eqn:Hl; [|done].
  destruct (underlying p) as [m0|r] eqn:Hu; [done|].
  unfold reject. rewrite Hl. destruct (settled p) eqn:Hst; [done|].
  assert (Hstore : forall q p' m,
            <[pid := MkPromise (underlying p) (hasCanceled p) true None]> (promises w) !! q
            = Some p' ->
            underlying p' = Immediate m -> m = originalModel (proxy w)).
  { intros q p' m. rewrite lookup_insert.
    destruct (decide _) as [<-|Hne]; [|apply Hi].
    intros [= <-]. cbn. by apply (Hi pid). }
  assert (Hres : forall q p',
            <[pid := MkPromise (underlying p) (hasCanceled p) true None]> (promises w) !! q
            = Some p' ->
            modelPromise (proxy w) = Some q -> hasCanceled p' = true \/ resolved p' = None).
  { intros q p'. rewrite lookup_insert.
    destruct (decide _) as [<-|Hne]; [intros [= <-]; by right|].
    intros Hq Hslot. by apply (Hs q). }
  unfold onNextModelFailed.
  destruct (hasCanceled p) eqn:Hcan; [|destruct (isCanceled e)];
    split; cbn [proxy promises nextModel calls upd_proxy update_promise upd_promises
                emit set_modelPromise originalModel model modelPromise];
    try done; try (intros q p' Hq Hq'; by apply (Hres q)).
Qed.

Lemma Life_step (t0 : Table) (w : World) (a : Action) :
  Life t0 w -> is_close_action a = false -> Life t0 (step w a).
Proof.
  intros HL Ha. destruct (is_setter a) eqn:Hset.
  - destruct (setter_step w a Hset) as [->|(src & f & -> & Hf & Hsrc)]; [done|].
    by apply Life_setNextModel.
  - destruct a as [c|c|names|top bottom cols| | | |pid t|pid e]; try discriminate;
      cbn [step].
    + by apply (Life_frame t0 w).
    + unfold addEventListener, startListening.
      destruct (bool_decide _); rewrite ?addListeners_eq;
        (apply (Life_frame t0 w); try done); intros n; cbn [calls proxy upd_proxy];
        by rewrite close_count_app, close_count_listeners.
    + unfold removeEventListener, stopListening.
      destruct (listenerCount (proxy w)) as [|k]; [done|].
      destruct (bool_decide _); rewrite ?removeListeners_eq;
        (apply (Life_frame t0 w); try done); intros n; cbn [calls proxy upd_proxy];
        by rewrite close_count_app, close_count_listeners.
    + by apply Life_complete.
    + by apply Life_fail.
Qed.

Lemma Life_constructor (t0 : Table) : Life t0 (constructor t0).
Proof.
  split; unfold constructor; cbn [proxy promises nextModel calls originalModel model
                                  modelPromise]; try done.
  - by left.
  - intros n Hn. rewrite mid_makeModel. split_decide; [lia|done].
Qed.

Lemma Life_run (t0 : Table) (tr : list Action) :
  existsb is_close_action tr = false -> Life t0 (run (constructor t0) tr).
Proof.
  induction tr as [|a tr IH] using rev_ind; intros Hall;
    [apply Life_constructor|].
  rewrite existsb_app in Hall. apply orb_false_elim in Hall as [Htr Ha].
  cbn in Ha. apply orb_false_elim in Ha as [Ha _].
  rewrite run_snoc. apply Life_step; [by apply IH | done].
Qed.

Lemma cancel_log_emit (pid : PromiseId) (c : Call) (w : World) :
  cancel_log pid (emit c w) = cancel_log pid w.
Proof. reflexivity. Qed.

Lemma Closed_close (t0 : Table) (w : World) : Inv w -> Life t0 w -> Closed (close w).
Proof.
  intros HI HL. destruct (Life_mid t0 w HL) as [Hmo Hma].
  destruct HL as [Ho Hn Ha Hi Hs Hc].
  assert (Hlog : forall pid, modelPromise (proxy w) = Some pid -> cancel_log pid w = []).
  { intros pid Hslot. unfold cancel_log.
    destruct (promises w !! pid) as [p|] eqn:Hl; [|done].
    destruct (Hs pid p Hslot Hl) as [-> | ->]; [done|].
    by destruct (hasCanceled p), (settled p). }
  assert (Hcalls : calls (close w)
                   = (if negb (same_object (model (proxy w)) (originalModel (proxy w)))
                      then [ModelClose (mid (model (proxy w)))] else [])
                     ++ ModelClose (mid (originalModel (proxy w))) :: calls w).
  { unfold close. destruct (modelPromise (proxy w)) as [pid|].
    - destruct (negb (same_object _ _)); rewrite cancelPromise_eq,
        ?cancel_log_emit, (Hlog pid eq_refl); reflexivity.
    - by destruct (negb (same_object _ _)). }
  assert (Hstore : promises (close w) = superseded_store w).
  { unfold close, superseded_store. destruct (modelPromise (proxy w)) as [pid|].
    - rewrite cancelPromise_eq. by destruct (negb (same_object _ _)).
    - by destruct (negb (same_object _ _)). }
  assert (Hnext : nextModel (close w) = nextModel w).
  { unfold close. destruct (modelPromise (proxy w)) as [pid|].
    - rewrite cancelPromise_eq. by destruct (negb (same_object _ _)).
    - by destruct (negb (same_object _ _)). }
  split.
  - intros pid (p & Hl & Hcan & Hst). rewrite Hstore, superseded_store_lookup in Hl.
    destruct (decide _) as [Hslot|Hslot].
    + destruct (promises w !! pid); [|done]. cbn in Hl. injection Hl as <-. done.
    + apply Hslot, (inv_pending w HI). by exists p.
  - intros pid p m. rewrite Hstore, superseded_store_lookup, Ho, mid_makeModel in *.
    destruct (decide _).
    + destruct (promises w !! pid) as [p0|] eqn:Hl; [|done]. cbn. intros [= <-] Hu.
      rewrite (Hi pid p0 m Hl Hu). apply mid_makeModel.
    + intros Hl Hu. rewrite (Hi pid p m Hl Hu). apply mid_makeModel.
  - rewrite Hcalls, close_count_app, close_count_cons, Hmo.
    rewrite bool_decide_eq_true_2 by done. lia.
  - intros n Hn1. rewrite Hcalls, Hnext, close_count_app, close_count_cons, (Hc n Hn1), Hmo.
    unfold same_object. rewrite Hmo.
    destruct (bool_decide (mid (model (proxy w)) = 0)) eqn:Hd; cbn [negb];
      rewrite ?close_count_cons; unfold close_count at 1; cbn [List.filter length];
      [apply bool_decide_eq_true in Hd | apply bool_decide_eq_false in Hd];
      split_decide; lia.
Qed.

Lemma Closed_complete (pid : PromiseId) (t : Table) (w : World) :
  Closed w -> Closed (complete pid t w).
Proof.
  intros [Hp Hi Ho Hc].
  destruct (promises w !! pid) as [p|] eqn:Hl;
    [|rewrite complete_settled; [done | by rewrite Hl]].
  destruct (settled p) eqn:Hst;
    [rewrite complete_settled; [done | rewrite Hl; by intros ? [= <-]]|].
  destruct (hasCanceled p) eqn:Hcan; [|destruct (Hp pid); by exists p].
  assert (Hmid : mid (delivered p w t)
                 = match underlying p with Immediate _ => 0 | Derived _ => nextModel w end).
  { unfold delivered, result_of. destruct (underlying p) as [m0|r] eqn:Hu.
    - by apply (Hi pid p).
    - apply mid_makeModel. }
  rewrite (complete_canceled_world pid t w p Hl Hcan Hst).
  split; cbn [promises nextModel calls].
  - intros q (p' & Hq & Hcan' & Hst'). cbn [promises] in Hq. rewrite lookup_insert in Hq.
    destruct (decide _) as [<-|Hne]; [by injection Hq as <-|].
    apply (Hp q). by exists p'.
  - intros q p' m. rewrite lookup_insert.
    destruct (decide _) as [<-|Hne]; [|apply Hi].
    intros [= <-]. cbn. by apply (Hi pid).
  - rewrite close_count_cons. lia.
  - intros n Hn1. rewrite close_count_cons, (Hc n Hn1), Hmid.
    unfold nextModel_after. destruct (underlying p); split_decide; lia.
Qed.

Lemma Closed_fail (pid : PromiseId) (e : Err) (w : World) :
  Closed w -> Closed (fail pid e w).
Proof.
  intros HC. assert (Hnp : ~ pending w pid) by apply (closed_pending w HC).
  destruct HC as [Hp Hi Ho Hc]. unfold fail.
  destruct (promises w !! pid) as [p|] eqn:Hl; [|done].
  destruct (underlying p) as [m0|r] eqn:Hu; [done|].
  unfold reject. rewrite Hl. destruct (settled p) eqn:Hst; [done|].
  destruct (hasCanceled p) eqn:Hcan; [|destruct Hnp; by exists p].
  split; cbn [promises nextModel calls update_promise upd_promises]; try done.
  - intros q (p' & Hq & Hcan' & Hst'). cbn [promises update_promise upd_promises] in Hq. rewrite lookup_insert in Hq.
    destruct (decide _) as [<-|Hne]; [by injection Hq as <-|].
    apply (Hp q). by exists p'.
  - intros q p' m. rewrite lookup_insert.
    destruct (decide _) as [<-|Hne]; [|apply Hi].
    intros [= <-]. cbn. rewrite Hu. done.
Qed.

Lemma Closed_run (w : World) (tr : list Action) :
  Closed w -> forallb is_completion tr = true -> Closed (run w tr).
Proof.
  intros HC. induction tr as [|a tr IH] using rev_ind; intros Hall; [done|].
  rewrite forallb_app in Hall. apply andb_prop in Hall as [Htr Ha].
  rewrite run_snoc.
  destruct a as [c|c|names|top bottom cols| | | |pid t|pid e]; try discriminate Ha;
    cbn [step]; [apply Closed_complete | apply Closed_fail]; by apply IH.
Qed.

Lemma originalModel_step (w : World) (a : Action) :
  originalModel (proxy (step w a)) = originalModel (proxy w).
Proof. step_cases w a; reflexivity. Qed.

Lemma originalModel_run (t0 : Table) (tr : list Action) :
  originalModel (proxy (run (constructor t0) tr)) = makeModel 0 t0.
Proof.
  induction tr as [|a tr IH] using rev_ind; [done|].
  by rewrite run_snoc, originalModel_step.
Qed.

Lemma run_app (w : World) (tr1 tr2 : list Action) :
  run w (tr1 ++ tr2) = run (run w tr1) tr2.
Proof. unfold run. apply foldl_app. Qed.

(** X4: the original model is never replaced: after any actions, also
    closing, [originalModel] is the model the constructor built over the
    given source.  As long as the proxy has not been closed, the active
    model is that very object or an object [makeModel] built since, so that
    comparing identities tells whether the active model is the original
    one, and every wrapper around an already resolved promise holds the
    original model. *)
Theorem model_identities (t0 : Table) (tr : list Action) :
  let w := run (constructor t0) tr in
  originalModel (proxy w) = makeModel 0 t0
  /\ (existsb is_close_action tr = false ->
      (model (proxy w) = originalModel (proxy w)
       \/ exists n t, 1 <= n < nextModel w /\ model (proxy w) = makeModel n t)
      /\ (same_object (model (proxy w)) (originalModel (proxy w)) = true ->
          model (proxy w) = originalModel (proxy w))
      /\ (forall pid p m, promises w !! pid = Some p -> underlying p = Immediate m ->
                          m = originalModel (proxy w))).
Proof.
  intros w. split; [apply originalModel_run|]. intros Hfree.
  pose proof (Life_run t0 tr Hfree) as HL. fold w in HL.
  destruct (Life_mid t0 w HL) as [Hmo _]. destruct HL as [Ho Hn Ha Hi _ _].
  split; [done|]. split; [|done].
  unfold same_object. rewrite Hmo. intros Hid. apply bool_decide_eq_true in Hid.
  destruct Ha as [Ha | (n & t & Hn' & Ha)]; [done|].
  rewrite Ha, mid_makeModel in Hid. lia.
Qed.

Lemma model_identities_witness :
  model (proxy (run (constructor ex_flat) ex_two_rollups_trace)) = makeModel 2 ex_tree
  /\ (same_object (model (proxy ex_world)) (originalModel (proxy ex_world)) = true ->
      model (proxy ex_world) = originalModel (proxy ex_world)).
Proof.
  split; [vm_compute; reflexivity|].
  apply (model_identities ex_flat []). reflexivity.
Defined.

(** X5: as long as the proxy has not been closed, every backing model
    built after the original one is either the active model, and then not
    closed, or has been closed exactly once; no model that was never built
    is closed. *)
Theorem derived_models_closed_once (t0 : Table) (tr : list Action) :
  existsb is_close_action tr = false ->
  let w := run (constructor t0) tr in
  mid (originalModel (proxy w)) = 0
  /\ mid (model (proxy w)) < nextModel w
  /\ forall n, 1 <= n ->
       close_count n (calls w)
       = if bool_decide (n < nextModel w /\ n <> mid (model (proxy w))) then 1 else 0.
Proof.
  intros Hfree w. pose proof (Life_run t0 tr Hfree) as HL. fold w in HL.
  destruct (Life_mid t0 w HL) as [Hmo Hma]. split; [done|]. split; [done|].
  apply (life_closed t0 w HL).
Qed.

Lemma derived_models_closed_once_witness :
  close_count 1 (calls (run (constructor ex_flat) ex_two_rollups_trace)) = 1
  /\ close_count 2 (calls (run (constructor ex_flat) ex_two_rollups_trace)) = 0.
Proof.
  destruct (derived_models_closed_once ex_flat ex_two_rollups_trace eq_refl)
    as (_ & _ & H).
  split; [rewrite (H 1) by lia | rewrite (H 2) by lia]; vm_compute; reflexivity.
Defined.

(** X6: once the proxy is closed, and however the operations still in
    flight complete or fail afterwards, no transition is pending, the
    original model has been closed, and every backing model built after
    the original one has been closed exactly once. *)
Theorem closed_proxy_disposes_derived_models (t0 : Table) (tr tr2 : list Action) :
  existsb is_close_action tr = false -> forallb is_completion tr2 = true ->
  let w := run (constructor t0) (tr ++ Close :: tr2) in
  (forall pid, ~ pending w pid)
  /\ 1 <= close_count 0 (calls w)
  /\ forall n, 1 <= n ->
       close_count n (calls w) = if bool_decide (n < nextModel w) then 1 else 0.
Proof.
  intros Hfree Hcompl w.
  assert (HC : Closed w).
  { unfold w. rewrite run_app. change (Close :: tr2) with ([Close] ++ tr2).
    rewrite run_app. apply Closed_run; [|done].
    apply (Closed_close t0); [apply Inv_run | by apply Life_run]. }
  destruct HC as [Hp _ Ho Hc]. done.
Qed.

Lemma closed_proxy_disposes_derived_models_witness :
  let w := run (constructor ex_flat)
               ([SetRollupConfig (Some ex_rollup); Fulfil 0 ex_tree;
                 SetRollupConfig (Some ex_rollup')] ++ Close :: [Fulfil 1 ex_tree]) in
  close_count 1 (calls w) = 1 /\ close_count 2 (calls w) = 1.
Proof.
  intros w. subst w.
  destruct (closed_proxy_disposes_derived_models ex_flat
              [SetRollupConfig (Some ex_rollup); Fulfil 0 ex_tree;
               SetRollupConfig (Some ex_rollup')]
              [Fulfil 1 ex_tree] eq_refl eq_refl) as (_ & _ & H).
  split; [rewrite (H 1) by lia | rewrite (H 2) by lia]; vm_compute; reflexivity.
Defined.

(** ** Transitions started by the setters *)

(** The wrapper [setNextModel] has just allocated completes: its value is
    installed. *)
Lemma complete_fresh (src : Source) (f : Proxy -> Proxy) (t : Table) (w : World) :
  proxy (complete (nextPromise w) t (setNextModel src (upd_proxy f w)))
  = set_model (result_of src (nextModel w) t) (set_modelPromise None (f (proxy w))).
Proof.
  assert (Hl : promises (setNextModel src (upd_proxy f w)) !! nextPromise w
               = Some (MkPromise src false false None)).
  { rewrite setNextModel_eq. cbn [promises nextPromise upd_proxy]. apply lookup_insert_eq. }
  destruct (complete_pending _ t _ _ Hl eq_refl eq_refl) as [_ ->].
  rewrite setNextModel_eq. reflexivity.
Qed.

(** X7: clearing a configuration brings the original model back.  From any
    state a proxy can reach: with a rollup stored, setting the rollup to
    null and letting that transition complete makes the original model
    active; with select-distinct columns stored, so does setting an empty
    array (another object than the stored one); with partitions required,
    so does setting the partition configuration to null.  The stored
    configuration is cleared and no transition is left in the slot. *)
Theorem clearing_restores_original (t0 : Table) (tr : list Action) (t : Table) :
  let w := run (constructor t0) tr in
  (rollup (proxy w) <> None ->
   let w' := run w [SetRollupConfig None; Fulfil (nextPromise w) t] in
   model (proxy w') = originalModel (proxy w)
   /\ rollup (proxy w') = None /\ modelPromise (proxy w') = None)
  /\ (forall names,
        0 < length (items (selectDistinct (proxy w))) -> items names = [] ->
        same_ref names (selectDistinct (proxy w)) = false ->
        let w' := run w [SetSelectDistinctColumns names; Fulfil (nextPromise w) t] in
        model (proxy w') = originalModel (proxy w)
        /\ items (selectDistinct (proxy w')) = [] /\ modelPromise (proxy w') = None)
  /\ (isPartitionRequired (proxy w) = true ->
      let w' := run w [SetPartitionConfig None; Fulfil (nextPromise w) t] in
      model (proxy w') = originalModel (proxy w)
      /\ partition (proxy w') = None /\ modelPromise (proxy w') = None).
Proof.
  intros w.
  pose proof (rollup_or_selectDistinct_empty t0 tr) as Hex. fold w in Hex.
  split; [|split].
  - intros Hr w'. unfold w'. cbn [run foldl step].
    destruct Hex as [Hex|Hex]; [done|].
    unfold set_rollupConfig, isRollupAvailable, deepEqual.
    rewrite Hex, (bool_decide_eq_true_2 (rollup (proxy w) <> None)) by done.
    rewrite orb_true_r. cbn [length andb negb].
    rewrite (bool_decide_eq_true_2 (0 = 0)) by done. cbn [negb].
    rewrite (bool_decide_eq_false_2 (None = rollup (proxy w))) by done.
    cbn [state_of]. by rewrite complete_fresh.
  - intros names Hlen Hnames Href w'. unfold w'. cbn [run foldl step].
    destruct Hex as [Hex|Hex]; [|rewrite Hex in Hlen; cbn in Hlen; lia].
    unfold set_selectDistinctColumns, isSelectDistinctAvailable, selectDistinctColumns.
    rewrite Hex, (bool_decide_eq_true_2 (0 < length (items (selectDistinct (proxy w)))))
      by done.
    rewrite orb_true_r, (bool_decide_eq_true_2 (None = None)) by done.
    cbn [andb negb]. rewrite Href.
    rewrite (bool_decide_eq_false_2 (length (items (selectDistinct (proxy w))) = 0)) by lia.
    rewrite andb_false_r. cbn [orb]. rewrite Hnames. cbn [omap length].
    rewrite (bool_decide_eq_false_2 (0 < 0)) by lia. rewrite andb_false_r.
    cbn [state_of]. rewrite complete_fresh. cbn. by rewrite Hnames.
  - intros Hreq w'. unfold w'. cbn [run foldl step].
    unfold set_partitionConfig. rewrite Hreq. cbn [negb state_of].
    by rewrite complete_fresh.
Qed.

Lemma clearing_restores_original_witness :
  model (proxy (run (run (constructor ex_flat)
                         [SetRollupConfig (Some ex_rollup); Fulfil 0 ex_tree])
                    [SetRollupConfig None;
                     Fulfil (nextPromise
                               (run (constructor ex_flat)
                                    [SetRollupConfig (Some ex_rollup); Fulfil 0 ex_tree]))
                            ex_flat]))
  = originalModel
      (proxy (run (constructor ex_flat)
                  [SetRollupConfig (Some ex_rollup); Fulfil 0 ex_tree])).
Proof.
  destruct (clearing_restores_original ex_flat
              [SetRollupConfig (Some ex_rollup); Fulfil 0 ex_tree] ex_flat) as [H _].
  apply H. vm_compute. discriminate.
Defined.







(** ** Listeners around a transition *)



(** X10: what reaches the listeners of the proxy.  Start from a state in
    which the proxy has a listener and its handler is registered on the
    active model alone (for every event kind if no transition is in the
    slot, for none if one is), and follow any trace in which no listener
    is removed, the proxy is not closed and the transition in the slot
    does not fail.  Then an event fired by a backing model is re-dispatched
    by the proxy, once and with the same kind and detail, exactly when no
    transition is in the slot, the model is the active one and the kind is
    one of [IrisGridModel.EVENT]; an event of any model fired while a
    transition is in the slot, or of a model that is not the active one, is
    not re-dispatched. *)
Theorem relay_gating
  (t0 : Table) (tr0 tr : list Action) (m : ModelId) (type : EventName) (detail : Detail) :
  let w0 := run (constructor t0) tr0 in
  relaying w0 -> relay_trace w0 tr = true ->
  let w := run w0 tr in
  new_calls w (modelEvent m type detail w)
  = if bool_decide (modelPromise (proxy w) = None
                    /\ m = mid (model (proxy w)) /\ type ∈ EVENT_keys)
    then [DispatchEvent type detail] else [].
Proof.
  intros w0 Hr Htr w.
  assert (Hw : relaying w) by (apply relaying_run; [apply Inv_run | done | done]).
  destruct Hw as [_ Hsub]. unfold modelEvent. rewrite Hsub.
  destruct (bool_decide _); [by apply new_calls_cons | by apply new_calls_same].
Qed.

Lemma relay_gating_witness :
  new_calls (run (run (constructor ex_flat) [AddEventListener])
                 [SetRollupConfig (Some ex_rollup)])
            (modelEvent 0 (MODEL_EVENT "UPDATED") (DError (Failure "x"))
                        (run (run (constructor ex_flat) [AddEventListener])
                             [SetRollupConfig (Some ex_rollup)]))
  = [].
Proof.
  assert (Htr : relay_trace (run (constructor ex_flat) [AddEventListener])
                            [SetRollupConfig (Some ex_rollup)] = true)
    by (vm_compute; reflexivity).
  rewrite (relay_gating ex_flat [AddEventListener] [SetRollupConfig (Some ex_rollup)]
             0 (MODEL_EVENT "UPDATED") (DError (Failure "x"))
             relaying_ex_listening_world Htr).
  vm_compute. reflexivity.
Defined.

(** X11: a listener added while a transition is pending stays on the old
    model.  When the proxy has no listener and a transition is pending,
    adding the first listener registers the handler on the active model;
    when the transition then completes, [setModel] registers it on the new
    model as well and nothing removes it from the old one: the proxy ends
    up subscribed, for every event kind, to the replaced model and to the
    new active model. *)
Theorem late_listener_stays_on_old_model
  (w : World) (pid : PromiseId) (p : CancelablePromise) (t : Table) :
  listenerCount (proxy w) = 0 ->
  promises w !! pid = Some p -> hasCanceled p = false -> settled p = false ->
  let w' := complete pid t (addEventListener w) in
  model (proxy w') = delivered p w t
  /\ forall e, e ∈ EVENT_keys ->
       subscribed (calls w') (mid (model (proxy w))) e = true
       /\ subscribed (calls w') (mid (delivered p w t)) e = true.
Proof.
  intros Hcount Hl Hc Hs w'.
  assert (Hadd : addEventListener w
                 = MkWorld (set_listenerCount 1 (proxy w)) (promises w) (nextPromise w)
                           (nextModel w)
                           (rev (map (ModelAddEventListener (mid (model (proxy w))))
                                     EVENT_keys) ++ calls w)).
  { unfold addEventListener, startListening. rewrite Hcount.
    rewrite bool_decide_eq_true_2 by done. by rewrite addListeners_eq. }
  assert (Hl' : promises (addEventListener w) !! pid = Some p) by (by rewrite Hadd).
  destruct (complete_pending pid t (addEventListener w) p Hl' Hc Hs) as [Hcalls Hproxy].
  fold w' in Hcalls, Hproxy.
  assert (Hd : delivered p (addEventListener w) t = delivered p w t)
    by (by rewrite Hadd).
  rewrite Hd in Hcalls, Hproxy.
  split; [by rewrite Hproxy|].
  intros e He. rewrite Hcalls. rewrite !subscribed_setModel_log.
  rewrite Hadd. cbn [proxy calls listenerCount set_listenerCount].
  rewrite (bool_decide_eq_true_2 (0 < 1)) by lia. cbn [andb].
  rewrite !subscribed_adds.
  split; split_decide; try done; exfalso; decide_contra.
Qed.

Lemma late_listener_stays_on_old_model_witness :
  subscribed (calls (complete 0 ex_tree (addEventListener ex_pending_world)))
             0 REQUEST_FAILED = true
  /\ subscribed (calls (complete 0 ex_tree (addEventListener ex_pending_world)))
                1 REQUEST_FAILED = true.
Proof.
  destruct (late_listener_stays_on_old_model ex_pending_world 0 ex_pending_promise ex_tree
              eq_refl ex_pending_lookup eq_refl eq_refl) as [_ H].
  apply (H REQUEST_FAILED). apply list_elem_of_further, list_elem_of_here.
Defined.

(** X12: [stopListening] undoes [startListening].  [startListening]
    registers the handler on the active model for every event kind and on
    nothing else; a [stopListening] after it leaves the handler registered
    on the active model for no event kind, leaves every other model as it
    was, and neither changes a field of the proxy. *)
Theorem stopListening_undoes_startListening (w : World) :
  proxy (startListening w) = proxy w
  /\ proxy (stopListening (startListening w)) = proxy w
  /\ (forall m e,
        subscribed (calls (startListening w)) m e
        = if bool_decide (m = mid (model (proxy w)) /\ e ∈ EVENT_keys) then true
          else subscribed (calls w) m e)
  /\ (forall m e,
        subscribed (calls (stopListening (startListening w))) m e
        = if bool_decide (m = mid (model (proxy w)) /\ e ∈ EVENT_keys) then false
          else subscribed (calls w) m e).
Proof.
  unfold stopListening, startListening. rewrite removeListeners_eq, addListeners_eq.
  cbn [proxy calls]. split; [done|]. split; [done|]. split.
  - intros m e. apply subscribed_adds.
  - intros m e. rewrite subscribed_removes, subscribed_adds.
    by destruct (bool_decide _).
Qed.

(** ** Optional capabilities, when present *)

(** X13: the proxy does not advertise a capability its mutators then
    refuse.  When any expandable getter answers positively
    ([hasExpandableRows], [isExpandAllAvailable], [isRowExpandable],
    [isRowExpanded], or a non-zero [depthForRow]), [setRowExpanded],
    [expandAll] and [collapseAll] do not throw and forward exactly one call
    with the same arguments to the active model; when [isEditable],
    [isValidForCell] holds or [editValueForCell] is non-empty,
    [setValueForCell], [setValueForRanges] and [setValues] forward to the
    active model and return its promise. *)
Theorem advertised_capabilities_work (w : World) :
  (hasExpandableRows (proxy w) = true \/ isExpandAllAvailable (proxy w) = true
   \/ (exists y, isRowExpandable (proxy w) y = true \/ isRowExpanded (proxy w) y = true
                 \/ depthForRow (proxy w) y <> 0%Z) ->
   (forall y e d,
      setRowExpanded y e d w
      = Ok (emit (ModelSetRowExpanded (mid (model (proxy w))) y e d) w))
   /\ expandAll w = Ok (emit (ModelExpandAll (mid (model (proxy w)))) w)
   /\ collapseAll w = Ok (emit (ModelCollapseAll (mid (model (proxy w)))) w))
  /\ (isEditable (proxy w) = true
      \/ (exists x y, (exists v, isValidForCell (proxy w) x y v = true)
                      \/ editValueForCell (proxy w) x y <> EmptyString) ->
      (forall x y v,
         setValueForCell x y v w
         = (emit (ModelSetValueForCell (mid (model (proxy w))) x y v) w, ModelPromise))
      /\ (forall r v,
            setValueForRanges r v w
            = (emit (ModelSetValueForRanges (mid (model (proxy w))) r v) w, ModelPromise))
      /\ (forall edits,
            setValues edits w
            = (emit (ModelSetValues (mid (model (proxy w))) edits) w, ModelPromise))).
Proof.
  split.
  - unfold hasExpandableRows, isExpandAllAvailable, isRowExpandable, isRowExpanded,
      depthForRow, setRowExpanded, expandAll, collapseAll.
    destruct (isExpandableGridModel (model (proxy w))); [done|].
    intros [H|[H|(y & [H|[H|H]])]]; done.
  - unfold isEditable, isValidForCell, editValueForCell, setValueForCell,
      setValueForRanges, setValues.
    destruct (isEditableGridModel (model (proxy w))); [done|].
    intros [H|(x & y & [[v H]|H])]; done.
Qed.

Lemma advertised_capabilities_work_witness :
  expandAll (run (constructor ex_flat) [SetRollupConfig (Some ex_rollup); Fulfil 0 ex_tree])
  = Ok (emit (ModelExpandAll 1)
             (run (constructor ex_flat)
                  [SetRollupConfig (Some ex_rollup); Fulfil 0 ex_tree])).
Proof.
  apply (advertised_capabilities_work
           (run (constructor ex_flat) [SetRollupConfig (Some ex_rollup); Fulfil 0 ex_tree])).
  left. reflexivity.
Defined.

(** ** Viewport *)

(** X14: the viewport the proxy remembers is the latest one requested.
    [setViewport] makes exactly one [setViewport] call, with the same
    arguments, on the model that is active at that moment, and nothing
    else; after any actions the remembered viewport is the one of the
    latest [setViewport] call, or none if there was no such call: no
    swap, failure or configuration change touches it. *)
Theorem viewport_is_latest_request (t0 : Table) (tr : list Action) :
  let w := run (constructor t0) tr in
  currentViewport (proxy w) = last_viewport tr
  /\ forall top bottom cols,
       new_calls w (setViewport top bottom cols w)
       = [ModelSetViewport (mid (model (proxy w))) top bottom cols]
       /\ model (proxy (setViewport top bottom cols w)) = model (proxy w)
       /\ modelPromise (proxy (setViewport top bottom cols w)) = modelPromise (proxy w).
Proof.
  intros w. split; [apply currentViewport_run|].
  intros top bottom cols. split; [by apply new_calls_cons | done].
Qed.

(** ** useBroadcastLoginListener *)

(** X15: [onMessage] invokes at most one callback per message and hands it
    the message unchanged.  A login message goes to [onLogin] only: it
    never reaches [onLogout], also when it is a logout message as well or
    when no [onLogin] was given.  [onLogout] is invoked exactly for
    messages that are logout messages and not login messages, when it was
    given. *)
Theorem onMessage_dispatch
  (Message : Type) (isLogin isLogout : Message -> bool)
  (onLogin onLogout : bool) (data : Message) :
  length (onMessage Message isLogin isLogout onLogin onLogout data) <= 1
  /\ (forall i, i ∈ onMessage Message isLogin isLogout onLogin onLogout data ->
                i = OnLogin data \/ i = OnLogout data)
  /\ (OnLogin data ∈ onMessage Message isLogin isLogout onLogin onLogout data
      <-> isLogin data = true /\ onLogin = true)
  /\ (OnLogout data ∈ onMessage Message isLogin isLogout onLogin onLogout data
      <-> isLogin data = false /\ isLogout data = true /\ onLogout = true).
Proof.
  unfold onMessage.
  destruct (isLogin data), (isLogout data), onLogin, onLogout; cbn;
    (split; [lia|]); (split; [intros i Hi; first
       [ by apply not_elem_of_nil in Hi
       | apply list_elem_of_singleton in Hi; auto ]|]);
    split; split; intros H;
    try (by apply not_elem_of_nil in H);
    try (apply list_elem_of_singleton in H; discriminate H);
    try (by destruct H as (? & ? & ?));
    try (by destruct H as (? & ?));
    try (by apply list_elem_of_singleton);
    try done.
Qed.

Lemma onMessage_dispatch_witness :
  OnLogin 2 ∈ onMessage nat Nat.even (fun _ => true) true true 2
  /\ ~ OnLogout 2 ∈ onMessage nat Nat.even (fun _ => true) true true 2.
Proof.
  destruct (onMessage_dispatch nat Nat.even (fun _ => true) true true 2)
    as (_ & _ & H1 & H2).
  split.
  - apply H1. split; reflexivity.
  - intros H. apply H2 in H as [H _]. discriminate H.
Defined.

(** ** Closing, once more *)

Lemma close_log (t0 : Table) (w : World) :
  Life t0 w ->
  close w
  = MkWorld (proxy w) (superseded_store w) (nextPromise w) (nextModel w)
            ((if same_object (model (proxy w)) (originalModel (proxy w)) then []
              else [ModelClose (mid (model (proxy w)))])
             ++ ModelClose (mid (originalModel (proxy w))) :: calls w).
Proof.
  intros HL. unfold close, superseded_store.
  destruct (modelPromise (proxy w)) as [pid|] eqn:Hslot.
  - assert (Hlog : cancel_log pid w = []).
    { unfold cancel_log. destruct (promises w !! pid) as [p|] eqn:Hl; [|done].
      destruct (life_slot t0 w HL pid p Hslot Hl) as [-> | ->]; [done|].
      by destruct (hasCanceled p), (settled p). }
    destruct (same_object _ _); cbn [negb]; rewrite cancelPromise_eq,
      ?cancel_log_emit, Hlog; reflexivity.
  - destruct (same_object _ _); cbn [negb]; by destruct w.
Qed.

(** X16: what [close] does to a proxy that has not been closed before.  It
    calls [close] on the original model, then on the active model if that
    is another object, and makes no other call: no event is dispatched and
    the handler is not removed from any model.  It cancels the transition
    in the slot, so that none is pending afterwards, and changes no field
    of the proxy: the active model, the slot and the stored configurations
    stay as they were. *)
Theorem close_effects (t0 : Table) (tr : list Action) :
  existsb is_close_action tr = false ->
  let w := run (constructor t0) tr in
  new_calls w (close w)
  = (if same_object (model (proxy w)) (originalModel (proxy w)) then []
     else [ModelClose (mid (model (proxy w)))])
    ++ [ModelClose (mid (originalModel (proxy w)))]
  /\ proxy (close w) = proxy w
  /\ (forall pid, ~ pending (close w) pid)
  /\ (forall m e, subscribed (calls (close w)) m e = subscribed (calls w) m e).
Proof.
  intros Hfree w. pose proof (Life_run t0 tr Hfree) as HL. fold w in HL.
  split; [|split; [|split]].
  - apply new_calls_app. rewrite (close_log t0 w HL). cbn [calls].
    by rewrite <- app_assoc.
  - by rewrite (close_log t0 w HL).
  - apply (closed_pending (close w)). apply (Closed_close t0); [apply Inv_run | done].
  - intros m e. rewrite (close_log t0 w HL). cbn [calls].
    by destruct (same_object _ _).
Qed.

Lemma close_effects_witness :
  new_calls (run (constructor ex_flat) [SetRollupConfig (Some ex_rollup); Fulfil 0 ex_tree])
            (close (run (constructor ex_flat)
                        [SetRollupConfig (Some ex_rollup); Fulfil 0 ex_tree]))
  = [ModelClose 1; ModelClose 0].
Proof.
  apply (close_effects ex_flat [SetRollupConfig (Some ex_rollup); Fulfil 0 ex_tree]).
  reflexivity.
Defined.
